(** * Symbols-loaded event derivation (pkg/events/derive/symbols_loaded.go)

    A shallow embedding of the deriver that turns a "shared object loaded"
    event into a "symbols loaded" event, together with the parts of Go's
    standard library it calls ([strings.HasPrefix], [path.Join]). *)

From Stdlib Require Import ZArith Ascii String List.
From stdpp Require Import base option list gmap strings.

Local Open Scope string_scope.
Local Open Scope list_scope.

(** ** Go strings

    A Go string is a sequence of bytes; [string] is a sequence of 8-bit
    characters. *)

Module strings.

(** [strings.HasPrefix(s, prefix)]:
    [len(s) >= len(prefix) && s[:len(prefix)] == prefix]. *)
Definition HasPrefix (s prefix : string) : bool :=
  (String.length prefix <=? String.length s)%nat
  && String.eqb (String.substring 0 (String.length prefix) s) prefix.

End strings.

(** [s[i]] for an index in range (the callers below guard every access). *)
Definition byte_at (s : string) (i : nat) : ascii :=
  default Ascii.zero (String.get i s).

(** ** Go's package [path] *)

Module path.

Definition slash : ascii := "/"%char.
Definition dot : ascii := "."%char.

(** [lazybuf]: a lazily constructed path buffer.  It shares the input
    string [s] until the output first differs from it; [buf = None] is
    the nil slice. *)
Record lazybuf := Lazybuf {
  s : string;
  buf : option (list ascii);
  w : nat
}.

Definition index (b : lazybuf) (i : nat) : ascii :=
  match buf b with
  | Some bs => nth i bs Ascii.zero
  | None => byte_at (s b) i
  end.

Definition append (b : lazybuf) (c : ascii) : lazybuf :=
  match buf b with
  | None =>
      if (w b <? String.length (s b))%nat && Ascii.eqb (byte_at (s b) (w b)) c
      then Lazybuf (s b) None (S (w b))
      else
        (* make([]byte, len(s)); copy(buf, s[:w]); buf[w] = c *)
        let fresh :=
          take (w b) (list_ascii_of_string (s b))
          ++ replicate (String.length (s b) - w b) Ascii.zero in
        Lazybuf (s b) (Some (<[w b := c]> fresh)) (S (w b))
  | Some bs => Lazybuf (s b) (Some (<[w b := c]> bs)) (S (w b))
  end.

Definition to_string (b : lazybuf) : string :=
  match buf b with
  | None => String.substring 0 (w b) (s b)
  | Some bs => string_of_list_ascii (take (w b) bs)
  end.

Definition set_w (b : lazybuf) (k : nat) : lazybuf :=
  Lazybuf (s b) (buf b) k.

(** [for out.w > dotdot && out.index(out.w) != '/' { out.w-- }] *)
Fixpoint backtrack (b : lazybuf) (dotdot : nat) (k : nat) : nat :=
  if (dotdot <? k)%nat && negb (Ascii.eqb (index b k) slash) then
    match k with
    | O => O
    | S k' => backtrack b dotdot k'
    end
  else k.

(** [for ; r < n && path[r] != '/'; r++ { out.append(path[r]) }];
    [fuel] bounds the number of iterations, [n - r] is always enough. *)
Fixpoint copy_element (fuel : nat) (p : string) (n r : nat) (out : lazybuf)
  : nat * lazybuf :=
  if (r <? n)%nat && negb (Ascii.eqb (byte_at p r) slash) then
    match fuel with
    | O => (r, out)
    | S fuel' => copy_element fuel' p n (S r) (append out (byte_at p r))
    end
  else (r, out).

(** The loop state of [Clean]: the read index, the output buffer and the
    index where [..] must stop. *)
Record clean_state := CleanState {
  cs_r : nat;
  cs_out : lazybuf;
  cs_dotdot : nat
}.

(** One iteration of the [for r < n] loop of [Clean]. *)
Definition clean_step (p : string) (n : nat) (rooted : bool)
  (st : clean_state) : clean_state :=
  let r := cs_r st in
  let out := cs_out st in
  let dotdot := cs_dotdot st in
  if Ascii.eqb (byte_at p r) slash then
    (* empty path element *)
    CleanState (r + 1) out dotdot
  else if Ascii.eqb (byte_at p r) dot
          && ((r + 1 =? n)%nat || Ascii.eqb (byte_at p (r + 1)) slash) then
    (* . element *)
    CleanState (r + 1) out dotdot
  else if Ascii.eqb (byte_at p r) dot && Ascii.eqb (byte_at p (r + 1)) dot
          && ((r + 2 =? n)%nat || Ascii.eqb (byte_at p (r + 2)) slash) then
    (* .. element: remove to last / *)
    if (dotdot <? w out)%nat then
      (* can backtrack *)
      CleanState (r + 2) (set_w out (backtrack out dotdot (w out - 1))) dotdot
    else if negb rooted then
      (* cannot backtrack, but not rooted, so append .. element *)
      let out1 := if (0 <? w out)%nat then append out slash else out in
      let out2 := append (append out1 dot) dot in
      CleanState (r + 2) out2 (w out2)
    else CleanState (r + 2) out dotdot
  else
    (* real path element: add slash if needed, then copy the element *)
    let out1 :=
      if (rooted && negb (w out =? 1)%nat) || (negb rooted && negb (w out =? 0)%nat)
      then append out slash else out in
    let '(r', out2) := copy_element (n - r) p n r out1 in
    CleanState r' out2 dotdot.

Fixpoint clean_loop (fuel : nat) (p : string) (n : nat) (rooted : bool)
  (st : clean_state) : clean_state :=
  if (cs_r st <? n)%nat then
    match fuel with
    | O => st
    | S fuel' => clean_loop fuel' p n rooted (clean_step p n rooted st)
    end
  else st.

(** [path.Clean]. *)
Definition Clean (p : string) : string :=
  if String.eqb p "" then "."
  else
    let rooted := Ascii.eqb (byte_at p 0) slash in
    let n := String.length p in
    let out := Lazybuf p None 0 in
    let st0 :=
      if rooted then CleanState 1 (append out slash) 1
      else CleanState 0 out 0 in
    let st := clean_loop n p n rooted st0 in
    (* Turn empty string into "." *)
    if (w (cs_out st) =? 0)%nat then "." else to_string (cs_out st).

(** [path.Join]: the elements are appended to a buffer, a slash before
    each one once the buffer is non-empty, so empty elements at the front
    are ignored; the result is cleaned, and is [""] when every element is
    empty. *)
Definition join_step (b : string) (e : string) : string :=
  if (0 <? String.length b)%nat || negb (String.eqb e "") then
    (if (0 <? String.length b)%nat then b ++ "/" else b) ++ e
  else b.

Definition Join (elem : list string) : string :=
  let size := foldl (fun n e => n + String.length e) 0 elem in
  if (size =? 0)%nat then "" else Clean (foldl join_step "" elem).

End path.


(** ** Data model *)

(** Go's [error] values that reach the deriver.  An extraction error names
    the field of the raw event that is absent or mistyped; a resolution
    error is whatever the symbols loader reports. *)
Inductive extraction_failure := FieldAbsent | FieldMistyped.

Inductive error :=
  | ExtractionError (field : string) (why : extraction_failure)
  | ResolutionError (msg : string).

(** Go's [interface{}] restricted to the dynamic types that occur in the
    arguments of a [trace.Event] and in the derived arguments. *)
Inductive value :=
  | VInt (z : Z)
  | VUint32 (z : Z)
  | VUint64 (z : Z)
  | VString (str : string)
  | VStrings (strs : list string).

(** [trace.ArgMeta], [trace.Argument] and the fields of [trace.Event] that
    the deriver and its test read or set; the declarations of package
    [trace] are reconstructed from these uses.  An unsigned integer is a
    [Z]; the deriver only moves such values around. *)
Record ArgMeta := { Type_ : string; Name : string }.

Record Argument := { Meta : ArgMeta; Value : value }.

Record Event := {
  EventName : string;
  EventID : Z;
  HostProcessID : Z;
  ProcessID : Z;
  MountNS : Z;
  Args : list Argument
}.

(** [sharedobjs.ObjID] and [sharedobjs.ObjInfo], reconstructed from the
    literals in [getSharedObjectInfo] and in the test.  The field [MountNS]
    of [ObjInfo] is [ObjMountNS] here, [MountNS] being the event's. *)
Record ObjID := { Inode : Z; Device : Z; Ctime : Z }.

Record ObjInfo := { Id : ObjID; Path : string; ObjMountNS : Z }.

#[global] Instance ObjID_eq_dec : EqDecision ObjID.
Proof. solve_decision. Defined.

#[global] Instance ObjInfo_eq_dec : EqDecision ObjInfo.
Proof. solve_decision. Defined.

#[global] Instance ObjInfo_countable : Countable ObjInfo.
Proof.
  refine (inj_countable'
    (fun o => (Inode (Id o), Device (Id o), Ctime (Id o), Path o, ObjMountNS o))
    (fun t => let '(i, d, c, p, m) := t in
              {| Id := {| Inode := i; Device := d; Ctime := c |};
                 Path := p; ObjMountNS := m |}) _).
  by intros [[] ? ?].
Defined.

(** The zero value of [sharedobjs.ObjInfo] ([var objInfo sharedobjs.ObjInfo]). *)
Definition zeroObjInfo : ObjInfo :=
  {| Id := {| Inode := 0; Device := 0; Ctime := 0 |}; Path := ""; ObjMountNS := 0 |}.

(** [sharedobjs.DynamicSymbolsLoader]: the interface of the symbols loader,
    with the three methods the test mock implements.  A loader may keep
    state (a cache), so every method returns the loader after the call next
    to its two results.  A nil map and an empty map range alike, both are
    [∅]. *)
Class DynamicSymbolsLoader (L : Type) := {
  GetDynamicSymbols : L → ObjInfo → L * (gmap string bool * option error);
  GetExportedSymbols : L → ObjInfo → L * (gmap string bool * option error);
  GetImportedSymbols : L → ObjInfo → L * (gmap string bool * option error)
}.

(** [for sym := range m] visits every key of a Go map once, in an order the
    language leaves unspecified.  The order is a parameter of the model. *)
Class MapRange := {
  range_keys : gmap string bool → list string;
  range_keys_perm : ∀ m, range_keys m ≡ₚ elements (dom m)
}.

(** ** Argument extraction (package [parse]) *)

(** The helpers [parse.ArgUint64Val], [parse.ArgUint32Val] and
    [parse.ArgStringVal] belong to a package of the repository that is not
    among the embedded files. *)
Module parse.

(** Modelled from the spec: the lookup of a field of the raw event "by
    name", missing from the embedded files; the first argument with that
    name is the field. *)
Definition findArg (event : Event) (argName : string) : option value :=
  Value <$> List.find (fun a => String.eqb (Name (Meta a)) argName) (Args event).

(** Modelled from the spec: [parse.ArgUint64Val], missing from the embedded
    files.  It extracts an unsigned 64-bit field by name and fails with an
    extraction error naming the field when the field is absent or has the
    wrong underlying representation. *)
Definition ArgUint64Val (event : Event) (argName : string) : Z * option error :=
  match findArg event argName with
  | Some (VUint64 z) => (z, None)
  | Some _ => (0%Z, Some (ExtractionError argName FieldMistyped))
  | None => (0%Z, Some (ExtractionError argName FieldAbsent))
  end.

(** Modelled from the spec: [parse.ArgUint32Val], missing from the embedded
    files; as above for an unsigned 32-bit field. *)
Definition ArgUint32Val (event : Event) (argName : string) : Z * option error :=
  match findArg event argName with
  | Some (VUint32 z) => (z, None)
  | Some _ => (0%Z, Some (ExtractionError argName FieldMistyped))
  | None => (0%Z, Some (ExtractionError argName FieldAbsent))
  end.

(** Modelled from the spec: [parse.ArgStringVal], missing from the embedded
    files; as above for a string field. *)
Definition ArgStringVal (event : Event) (argName : string) : string * option error :=
  match findArg event argName with
  | Some (VString str) => (str, None)
  | Some _ => ("", Some (ExtractionError argName FieldMistyped))
  | None => ("", Some (ExtractionError argName FieldAbsent))
  end.

End parse.

(** ** The deriver *)

(** Most specific paths should be at the top, to prevent bugs with
    iterations over the list. *)
Definition knownLibrariesDirs : list string := [
  "/usr/lib/x86_64-linux-gnu/";
  "/usr/lib64/";
  "/usr/lib/";
  "/lib64/";
  "/lib/"
].

(** [getSharedObjectInfo]: extract from the loading event the information
    available about the shared object. *)
Definition getSharedObjectInfo (event : Event) : ObjInfo * option error :=
  let objInfo := zeroObjInfo in
  let '(loadedObjectInode, err) := parse.ArgUint64Val event "inode" in
  if err is Some _ then (objInfo, err) else
  let '(loadedObjectDevice, err) := parse.ArgUint32Val event "dev" in
  if err is Some _ then (objInfo, err) else
  let '(loadedObjectCtime, err) := parse.ArgUint64Val event "ctime" in
  if err is Some _ then (objInfo, err) else
  let '(loadedObjectPath, err) := parse.ArgStringVal event "pathname" in
  if err is Some _ then (objInfo, err) else
  ({| Id := {| Inode := loadedObjectInode;
               Device := loadedObjectDevice;
               Ctime := loadedObjectCtime |};
      Path := loadedObjectPath;
      ObjMountNS := MountNS event |}, None).

Section Deriver.

Context {L : Type} `{!DynamicSymbolsLoader L} `{!MapRange}.

(** [symbolsLoadedEventGenerator] generates an event if a shared object
    loaded to a process exports one or more of the watched symbols. *)
Record symbolsLoadedEventGenerator := {
  soLoader : L;
  watchedSymbols : gmap string bool;
  pathPrefixWhitelist : list string;
  librariesWhitelist : list string
}.

(** The classification loop of [initSymbolsLoadedEventGenerator]: the
    state is the pair [(libraries, prefixes)]. *)
Definition classify (acc : list string * list string) (p : string)
  : list string * list string :=
  if strings.HasPrefix p "/" then (acc.1, acc.2 ++ [p])
  else (acc.1 ++ [p], acc.2).

Definition initSymbolsLoadedEventGenerator (loader : L)
  (watched : list string) (whitelistedLibsPrefixes : list string)
  : symbolsLoadedEventGenerator :=
  let watchedSymbolsMap :=
    foldl (fun m sym => <[sym := true]> m) (∅ : gmap string bool) watched in
  let '(libraries, prefixes) := foldl classify ([], []) whitelistedLibsPrefixes in
  {| soLoader := loader;
     watchedSymbols := watchedSymbolsMap;
     pathPrefixWhitelist := prefixes;
     librariesWhitelist := libraries |}.

(** [m[sym]] on a [map[string]bool]: the zero value for a missing key. *)
Definition map_index (m : gmap string bool) (sym : string) : bool :=
  default false (m !! sym).

(** The first loop of [isWhitelist]: the absolute path prefixes. *)
Fixpoint hasWhitelistedPrefix (soPath : string) (prefixes : list string) : bool :=
  match prefixes with
  | [] => false
  | prefix :: rest =>
      if strings.HasPrefix soPath prefix then true
      else hasWhitelistedPrefix soPath rest
  end.

(** The innermost loop of [isWhitelist]: the whitelisted libraries under
    one libraries directory. *)
Fixpoint hasWhitelistedLib (soPath libsDirectory : string) (libs : list string) : bool :=
  match libs with
  | [] => false
  | wlLib :: rest =>
      if strings.HasPrefix soPath (path.Join [libsDirectory; wlLib]) then true
      else hasWhitelistedLib soPath libsDirectory rest
  end.

(** The loop over the known libraries directories; it is left ([break])
    at the first directory that is a prefix of the path. *)
Fixpoint inWhitelistedLibsDir (soPath : string) (libs dirs : list string) : bool :=
  match dirs with
  | [] => false
  | libsDirectory :: rest =>
      if strings.HasPrefix soPath libsDirectory
      then hasWhitelistedLib soPath libsDirectory libs
      else inWhitelistedLibsDir soPath libs rest
  end.

(** [isWhitelist] checks if a shared object's path is in the whitelist
    given in initialization. *)
Definition isWhitelist (gen : symbolsLoadedEventGenerator) (soPath : string) : bool :=
  if hasWhitelistedPrefix soPath (pathPrefixWhitelist gen) then true
  else if (0 <? length (librariesWhitelist gen))%nat
  then inWhitelistedLibsDir soPath (librariesWhitelist gen) knownLibrariesDirs
  else false.

(** The loop of [deriveArgs] over the exported symbols, in the order the
    map is ranged over. *)
Definition collectWatched (watched : gmap string bool) (syms : list string)
  : list string :=
  foldl (fun acc sym => if map_index watched sym then acc ++ [sym] else acc) [] syms.

(** [deriveArgs]: the derived arguments ([None] is the nil slice), the
    error ([None] is nil), and the generator with its loader after the
    call. *)
Definition deriveArgs (gen : symbolsLoadedEventGenerator) (event : Event)
  : symbolsLoadedEventGenerator * (option (list value) * option error) :=
  let '(loadingObjectInfo, err) := getSharedObjectInfo event in
  if err is Some _ then (gen, (None, err)) else
  if isWhitelist gen (Path loadingObjectInfo) then (gen, (None, None)) else
  let '(loader', (soSyms, err)) := GetExportedSymbols (soLoader gen) loadingObjectInfo in
  let gen' := {| soLoader := loader';
                 watchedSymbols := watchedSymbols gen;
                 pathPrefixWhitelist := pathPrefixWhitelist gen;
                 librariesWhitelist := librariesWhitelist gen |} in
  if err is Some _ then (gen', (None, err)) else
  let exportedWatchSymbols := collectWatched (watchedSymbols gen) (range_keys soSyms) in
  if (0 <? length exportedWatchSymbols)%nat
  then (gen', (Some [VString (Path loadingObjectInfo); VStrings exportedWatchSymbols], None))
  else (gen', (None, None)).

End Deriver.

Arguments symbolsLoadedEventGenerator : clear implicits.

(** ** Loaders and events used by the unit test *)

(** [for sym := range m] in the order of the key set's element list: one
    admissible order. *)
#[global] Instance elements_range : MapRange :=
  {| range_keys := fun m => elements (dom m);
     range_keys_perm := fun m => reflexivity _ |}.

(** [symbolsLoaderMock] of the unit test: a table from object to symbols. *)
Record symbolsLoaderMock := {
  cache : gmap ObjInfo (gmap string bool)
}.

Definition initLoaderMock : symbolsLoaderMock := {| cache := ∅ |}.

#[global] Instance symbolsLoaderMock_loader : DynamicSymbolsLoader symbolsLoaderMock := {|
  GetDynamicSymbols := fun loader info => (loader, (default ∅ (cache loader !! info), None));
  GetExportedSymbols := fun loader info => (loader, (default ∅ (cache loader !! info), None));
  GetImportedSymbols := fun loader info => (loader, (∅, None))
|}.

Record soInstance := { info : ObjInfo; syms : list string }.

Definition addSOSymbols (loader : symbolsLoaderMock) (so : soInstance) : symbolsLoaderMock :=
  let symsMap := foldl (fun m sym => <[sym := true]> m) (∅ : gmap string bool) (syms so) in
  {| cache := <[info so := symsMap]> (cache loader) |}.

Definition generateSOLoadedEvent (pid : Z) (so : ObjInfo) : Event :=
  {| EventName := "shared_object_loaded";
     EventID := 1036;
     HostProcessID := pid;
     ProcessID := pid;
     MountNS := 0;
     Args := [
       {| Meta := {| Type_ := "const char*"; Name := "pathname" |}; Value := VString (Path so) |};
       {| Meta := {| Type_ := "int"; Name := "flags" |}; Value := VInt 0 |};
       {| Meta := {| Type_ := "dev_t"; Name := "dev" |}; Value := VUint32 (Device (Id so)) |};
       {| Meta := {| Type_ := "unsigned long"; Name := "inode" |}; Value := VUint64 (Inode (Id so)) |};
       {| Meta := {| Type_ := "unsigned long"; Name := "ctime" |}; Value := VUint64 (Ctime (Id so)) |}
     ] |}.

(** A loader stub that records every object it is asked to resolve and
    gives one fixed answer. *)
Record stubLoader := {
  calls : list ObjInfo;
  answer : gmap string bool * option error
}.

#[global] Instance stubLoader_loader : DynamicSymbolsLoader stubLoader := {|
  GetDynamicSymbols := fun loader info =>
    ({| calls := calls loader ++ [info]; answer := answer loader |}, answer loader);
  GetExportedSymbols := fun loader info =>
    ({| calls := calls loader ++ [info]; answer := answer loader |}, answer loader);
  GetImportedSymbols := fun loader info =>
    ({| calls := calls loader ++ [info]; answer := answer loader |}, answer loader)
|}.

(** The table of [TestDeriveSharedObjectExportWatchedSymbols]. *)
Record testCase := {
  tc_name : string;
  tc_watchedSymbols : list string;
  tc_whitelistedLibs : list string;
  tc_loadingSO : soInstance;
  tc_expectedSymbols : list string
}.

Definition so_at (p : string) : ObjInfo :=
  {| Id := {| Inode := 1; Device := 0; Ctime := 0 |}; Path := p; ObjMountNS := 0 |}.

Definition testCases : list testCase := [
  {| tc_name := "SO with no export symbols";
     tc_watchedSymbols := ["open"; "close"; "write"];
     tc_whitelistedLibs := [];
     tc_loadingSO := {| info := so_at "1.so"; syms := [] |};
     tc_expectedSymbols := [] |};
  {| tc_name := "SO with 1 watched export symbols";
     tc_watchedSymbols := ["open"; "close"; "write"];
     tc_whitelistedLibs := [];
     tc_loadingSO := {| info := so_at "1.so"; syms := ["open"] |};
     tc_expectedSymbols := ["open"] |};
  {| tc_name := "SO with multiple watched export symbols";
     tc_watchedSymbols := ["open"; "close"; "write"];
     tc_whitelistedLibs := [];
     tc_loadingSO := {| info := so_at "1.so"; syms := ["open"; "close"; "write"] |};
     tc_expectedSymbols := ["open"; "close"; "write"] |};
  {| tc_name := "SO with partly watched export symbols";
     tc_watchedSymbols := ["open"; "close"; "write"];
     tc_whitelistedLibs := [];
     tc_loadingSO := {| info := so_at "1.so"; syms := ["open"; "close"; "sync"] |};
     tc_expectedSymbols := ["open"; "close"] |};
  {| tc_name := "SO with no watched export symbols";
     tc_watchedSymbols := ["open"; "close"; "write"];
     tc_whitelistedLibs := [];
     tc_loadingSO := {| info := so_at "1.so"; syms := ["createdir"; "rmdir"; "walk"] |};
     tc_expectedSymbols := [] |};
  {| tc_name := "whitelisted full path SO";
     tc_watchedSymbols := ["open"; "close"; "write"];
     tc_whitelistedLibs := ["/tmp/test"];
     tc_loadingSO := {| info := so_at "/tmp/test.so"; syms := ["open"] |};
     tc_expectedSymbols := [] |};
  {| tc_name := "whitelisted SO name";
     tc_watchedSymbols := ["open"; "close"; "write"];
     tc_whitelistedLibs := ["test"];
     tc_loadingSO := {| info := so_at "/lib/test.so"; syms := ["open"] |};
     tc_expectedSymbols := [] |}
].

(** The body of the test: build the mock and the generator, derive. *)
Definition runTestCase (tc : testCase) : option (list value) * option error :=
  let mockLoader := addSOSymbols initLoaderMock (tc_loadingSO tc) in
  let gen := initSymbolsLoadedEventGenerator mockLoader
               (tc_watchedSymbols tc) (tc_whitelistedLibs tc) in
  (deriveArgs gen (generateSOLoadedEvent 1 (info (tc_loadingSO tc)))).2.

(** The assertions of the test: no error; two arguments, the path and the
    expected symbols in any order, when symbols are expected; no argument
    otherwise. *)
Definition testPasses (tc : testCase) : Prop :=
  (runTestCase tc).2 = None
  ∧ if (0 <? length (tc_expectedSymbols tc))%nat
    then ∃ found, (runTestCase tc).1
                  = Some [VString (Path (info (tc_loadingSO tc))); VStrings found]
                  ∧ found ≡ₚ tc_expectedSymbols tc
    else (runTestCase tc).1 = None.

(** ** Sample inputs *)

Definition sampleWatched : list string := ["open"; "close"; "write"].

(** A libc-like object outside every whitelist. *)
Definition sampleSO : soInstance :=
  {| info := so_at "/opt/app/libfoo.so"; syms := ["open"; "close"; "sync"] |}.

Definition sampleLoader : symbolsLoaderMock := addSOSymbols initLoaderMock sampleSO.

Definition sampleEvent : Event := generateSOLoadedEvent 1 (info sampleSO).

(** An object under two known libraries directories, and a library rule
    that names it relative to the broader one. *)
Definition multiarchPath : string := "/usr/lib/x86_64-linux-gnu/foo.so".

Definition multiarchGen : symbolsLoadedEventGenerator symbolsLoaderMock :=
  initSymbolsLoadedEventGenerator initLoaderMock sampleWatched ["x86_64-linux-gnu/foo"].

(** A raw event whose [inode] field is a string and whose [dev] field is
    missing. *)
Definition brokenEvent : Event :=
  {| EventName := "shared_object_loaded";
     EventID := 1036;
     HostProcessID := 1;
     ProcessID := 1;
     MountNS := 0;
     Args := [
       {| Meta := {| Type_ := "const char*"; Name := "pathname" |}; Value := VString "1.so" |};
       {| Meta := {| Type_ := "unsigned long"; Name := "inode" |}; Value := VString "1" |};
       {| Meta := {| Type_ := "unsigned long"; Name := "ctime" |}; Value := VUint64 0 |}
     ] |}.

(** A loader that fails, and one that would report watched symbols. *)
Definition failingLoader : stubLoader :=
  {| calls := []; answer := (∅, Some (ResolutionError "no such file or directory")) |}.

Definition eagerLoader : stubLoader :=
  {| calls := []; answer := ({["open" := true]}, None) |}.

(** Two generators with the same path-prefix rules in a different order. *)
Definition orderedGen : symbolsLoadedEventGenerator symbolsLoaderMock :=
  {| soLoader := initLoaderMock; watchedSymbols := ∅;
     pathPrefixWhitelist := ["/tmp/test"; "/opt/"]; librariesWhitelist := ["test"] |}.

Definition reorderedGen : symbolsLoadedEventGenerator symbolsLoaderMock :=
  {| soLoader := initLoaderMock; watchedSymbols := ∅;
     pathPrefixWhitelist := ["/opt/"; "/tmp/test"]; librariesWhitelist := ["test"] |}.

(** ** Vocabulary of the specification *)

(** The underlying representation a required field of the raw event must
    have. *)
Inductive repr := RUint64 | RUint32 | RString.

Definition has_repr (v : value) (ty : repr) : bool :=
  match v, ty with
  | VUint64 _, RUint64 => true
  | VUint32 _, RUint32 => true
  | VString _, RString => true
  | _, _ => false
  end.

(** The four required named fields, in the order they are extracted. *)
Definition requiredFields : list (string * repr) :=
  [("inode", RUint64); ("dev", RUint32); ("ctime", RUint64); ("pathname", RString)].

(** What is wrong with a required field of an event, if anything: it is
    absent, or it has the wrong underlying representation. *)
Definition field_defect (event : Event) (fld : string * repr)
  : option extraction_failure :=
  match parse.findArg event fld.1 with
  | None => Some FieldAbsent
  | Some v => if has_repr v fld.2 then None else Some FieldMistyped
  end.

(** A whitelist entry with a leading path separator is a path-prefix rule,
    any other entry is a library rule. *)
Definition isPathPrefixRule (p : string) : bool := strings.HasPrefix p "/".

(** [d] is the first entry of [dirs] that is a prefix of [soPath]. *)
Definition FirstPrefixDir (dirs : list string) (soPath d : string) : Prop :=
  ∃ pre post,
    dirs = pre ++ d :: post
    ∧ Forall (fun d' => strings.HasPrefix soPath d' = false) pre
    ∧ strings.HasPrefix soPath d = true.

(** The three terminal outcomes of one derivation: the pair of the derived
    arguments and the error. *)
Definition suppressed (res : option (list value) * option error) : Prop :=
  res.1 = None ∧ res.2 = None.

Definition derived (res : option (list value) * option error) : Prop :=
  (∃ args, res.1 = Some args) ∧ res.2 = None.

Definition failed (res : option (list value) * option error) : Prop :=
  res.1 = None ∧ ∃ err, res.2 = Some err.

(** ** Further vocabulary and sample inputs *)

(** A whitelist configuration with the same entries written twice over and
    in another order. *)
Definition sampleWhitelist : list string := ["test"; "/tmp/"].

Definition shuffledWhitelist : list string := ["/tmp/"; "test"; "/tmp/"].

(** A raw event whose [inode] field is fine and whose [dev] field is
    missing. *)
Definition noDevEvent : Event :=
  {| EventName := "shared_object_loaded";
     EventID := 1036;
     HostProcessID := 1;
     ProcessID := 1;
     MountNS := 0;
     Args := [
       {| Meta := {| Type_ := "const char*"; Name := "pathname" |}; Value := VString "1.so" |};
       {| Meta := {| Type_ := "unsigned long"; Name := "inode" |}; Value := VUint64 1 |};
       {| Meta := {| Type_ := "unsigned long"; Name := "ctime" |}; Value := VString "0" |}
     ] |}.

(** A library rule that is a plain name: not empty, not [.] or [..], and
    without a separator. *)
Definition simpleName (lib : string) : bool :=
  negb (String.eqb lib "") && negb (String.eqb lib ".") && negb (String.eqb lib "..")
  && forallb (fun c => negb (Ascii.eqb c path.slash)) (list_ascii_of_string lib).

(** A table entry in the style of the test's, and the same object registered
    in mount namespace 7. *)
Definition sampleCase : testCase :=
  {| tc_name := "SO with partly watched export symbols, outside the whitelist";
     tc_watchedSymbols := sampleWatched;
     tc_whitelistedLibs := sampleWhitelist;
     tc_loadingSO := sampleSO;
     tc_expectedSymbols := ["open"; "close"] |}.

Definition namespacedCase : testCase :=
  {| tc_name := "SO registered in another mount namespace";
     tc_watchedSymbols := sampleWatched;
     tc_whitelistedLibs := [];
     tc_loadingSO :=
       {| info := {| Id := {| Inode := 1; Device := 0; Ctime := 0 |};
                     Path := "/opt/app/libfoo.so"; ObjMountNS := 7 |};
          syms := ["open"] |};
     tc_expectedSymbols := ["open"] |}.

(** * Properties *)

(** ** Strings *)

Lemma HasPrefix_cons (c a : ascii) (s p : string) :
  strings.HasPrefix (String c s) (String a p)
  = Ascii.eqb c a && strings.HasPrefix s p.
Proof.
  unfold strings.HasPrefix. cbn [String.length String.substring String.eqb].
  change (S (String.length p) <=? S (String.length s))%nat
    with (String.length p <=? String.length s)%nat.
  destruct (Ascii.eqb c a), (String.length p <=? String.length s)%nat; reflexivity.
Qed.

Lemma HasPrefix_nil (s : string) : strings.HasPrefix s "" = true.
Proof. destruct s; reflexivity. Qed.

Lemma append_cons (a : ascii) (p t : string) :
  (String a p ++ t)%string = String a (p ++ t)%string.
Proof. reflexivity. Qed.

(** [HasPrefix s p] holds exactly when [s] is [p] followed by something. *)
Lemma HasPrefix_spec (s p : string) :
  strings.HasPrefix s p = true ↔ ∃ t, s = (p ++ t)%string.
Proof.
  revert s. induction p as [|a p IH]; intros s.
  - rewrite HasPrefix_nil. split; [|done]. intros _. by exists s.
  - destruct s as [|c s].
    + split; [done|]. intros [t Ht]. by rewrite append_cons in Ht.
    + rewrite HasPrefix_cons, andb_true_iff, Ascii.eqb_eq, IH. split.
      * intros [-> [t ->]]. by exists t.
      * intros [t Ht]. rewrite append_cons in Ht. injection Ht as -> ->. eauto.
Qed.

Lemma string_app_assoc (a b c : string) :
  ((a ++ b) ++ c = a ++ (b ++ c))%string.
Proof.
  induction a as [|x a IH]; [done|]. rewrite !append_cons. by f_equal.
Qed.

(** A prefix of a prefix is a prefix. *)
Lemma HasPrefix_app_l (s a b : string) :
  strings.HasPrefix s (a ++ b)%string = true → strings.HasPrefix s a = true.
Proof.
  rewrite !HasPrefix_spec. intros [t ->]. exists (b ++ t)%string. apply string_app_assoc.
Qed.

(** It agrees with the standard library's prefix test. *)
Lemma HasPrefix_prefix (s p : string) : strings.HasPrefix s p = String.prefix p s.
Proof.
  revert s. induction p as [|a p IH]; intros s; [rewrite HasPrefix_nil; by destruct s|].
  destruct s as [|c s]; [done|]. rewrite HasPrefix_cons, IH. simpl.
  destruct (Ascii.ascii_dec a c) as [->|Hne].
  - by rewrite Ascii.eqb_refl.
  - destruct (Ascii.eqb_spec c a); [congruence|done].
Qed.

(** ** The loops of [path.Clean] never run out of fuel *)

Module path_facts.
Import path.
Local Open Scope nat_scope.

Lemma copy_element_fuel (p : string) (n : nat) (f1 f2 r : nat) (out : lazybuf) :
  n - r ≤ f1 → n - r ≤ f2 →
  copy_element f1 p n r out = copy_element f2 p n r out.
Proof.
  revert f2 r out. induction f1 as [|f1 IH]; intros f2 r out H1 H2.
  - assert ((r <? n)%nat = false) as Hr by (apply Nat.ltb_ge; lia).
    destruct f2; simpl; by rewrite Hr.
  - destruct f2 as [|f2].
    + assert ((r <? n)%nat = false) as Hr by (apply Nat.ltb_ge; lia).
      simpl; by rewrite Hr.
    + simpl. destruct ((r <? n)%nat && _); [|done]. apply IH; lia.
Qed.

Lemma copy_element_r_mono (fuel : nat) (p : string) (n r : nat) (out : lazybuf) :
  r ≤ (copy_element fuel p n r out).1.
Proof.
  revert r out. induction fuel as [|fuel IH]; intros r out; simpl.
  - by destruct (_ && _).
  - destruct (_ && _); simpl; [|done]. specialize (IH (S r) (append out (byte_at p r))). lia.
Qed.

Lemma copy_element_progress (p : string) (n r : nat) (out : lazybuf) :
  r < n → Ascii.eqb (byte_at p r) slash = false →
  r < (copy_element (n - r) p n r out).1.
Proof.
  intros Hr Hc. destruct (n - r) as [|fuel] eqn:Hf; [lia|]. simpl.
  rewrite Hc. rewrite (proj2 (Nat.ltb_lt r n) Hr). simpl.
  pose proof (copy_element_r_mono fuel p n (S r) (append out (byte_at p r))). lia.
Qed.

(** Every iteration of the main loop advances the read index. *)
Lemma clean_step_progress (p : string) (n : nat) (rooted : bool) (st : clean_state) :
  cs_r st < n → cs_r st < cs_r (clean_step p n rooted st).
Proof.
  intros Hr. unfold clean_step.
  destruct (Ascii.eqb (byte_at p (cs_r st)) slash) eqn:Hs; simpl; [lia|].
  destruct (_ && _); simpl; [lia|].
  destruct (_ && _); simpl.
  - destruct (cs_dotdot st <? w (cs_out st))%nat; simpl; [lia|].
    destruct (negb rooted); simpl; lia.
  - pose proof (copy_element_progress p n (cs_r st)
      (if rooted && negb (w (cs_out st) =? 1)%nat
          || negb rooted && negb (w (cs_out st) =? 0)%nat
       then append (cs_out st) slash else cs_out st) Hr Hs) as Hp.
    destruct (copy_element _ _ _ _ _) as [r' out2]. simpl in *. lia.
Qed.

Lemma clean_loop_fuel (p : string) (n : nat) (rooted : bool)
    (f1 f2 : nat) (st : clean_state) :
  n - cs_r st ≤ f1 → n - cs_r st ≤ f2 →
  clean_loop f1 p n rooted st = clean_loop f2 p n rooted st.
Proof.
  revert f2 st. induction f1 as [|f1 IH]; intros f2 st H1 H2.
  - assert ((cs_r st <? n)%nat = false) as Hr by (apply Nat.ltb_ge; lia).
    destruct f2; simpl; by rewrite Hr.
  - destruct f2 as [|f2].
    + assert ((cs_r st <? n)%nat = false) as Hr by (apply Nat.ltb_ge; lia).
      simpl; by rewrite Hr.
    + simpl. destruct (cs_r st <? n)%nat eqn:Hr; [|done].
      apply Nat.ltb_lt in Hr.
      pose proof (clean_step_progress p n rooted st Hr). apply IH; lia.
Qed.

(** With the fuel it is given, the main loop stops only because the whole
    path has been read. *)
Lemma clean_loop_done (p : string) (n : nat) (rooted : bool)
    (fuel : nat) (st : clean_state) :
  n - cs_r st ≤ fuel → n ≤ cs_r (clean_loop fuel p n rooted st).
Proof.
  revert st. induction fuel as [|fuel IH]; intros st Hf; simpl.
  - destruct (cs_r st <? n)%nat eqn:Hr; [apply Nat.ltb_lt in Hr; lia|].
    by apply Nat.ltb_ge in Hr.
  - destruct (cs_r st <? n)%nat eqn:Hr; [|by apply Nat.ltb_ge in Hr].
    apply Nat.ltb_lt in Hr.
    pose proof (clean_step_progress p n rooted st Hr). apply IH; lia.
Qed.

(** The table of the standard library's own test of [Clean]. *)
Example Clean_table :
  map Clean
    [""; "abc"; "abc/def"; "a/b/c"; "."; ".."; "../.."; "../../abc"; "/abc"; "/";
     "abc/"; "abc/def/"; "a/b/c/"; "./"; "../"; "../../"; "/abc/";
     "abc//def//ghi"; "//abc"; "///abc"; "//abc//"; "abc//";
     "abc/./def"; "/./abc/def"; "abc/.";
     "abc/def/ghi/../jkl"; "abc/def/../ghi/../jkl"; "abc/def/.."; "abc/def/../..";
     "/abc/def/../.."; "abc/def/../../.."; "/abc/def/../../..";
     "abc/def/../../../ghi/jkl/../../../mno";
     "abc/./../def"; "abc//./../def"; "abc/../../././../def"]
  = ["."; "abc"; "abc/def"; "a/b/c"; "."; ".."; "../.."; "../../abc"; "/abc"; "/";
     "abc"; "abc/def"; "a/b/c"; "."; ".."; "../.."; "/abc";
     "abc/def/ghi"; "/abc"; "/abc"; "/abc"; "abc";
     "abc/def"; "/abc/def"; "abc";
     "abc/def/jkl"; "abc/jkl"; "abc"; ".";
     "/"; ".."; "/";
     "../../mno";
     "def"; "def"; "../../def"].
Proof. vm_compute. reflexivity. Qed.

(** And of [Join]. *)
Example Join_table :
  map Join
    [[]; [""]; ["a"]; ["a"; "b"]; ["a"; ""]; [""; "b"]; ["/"; "a"]; ["/"; ""];
     ["a/"; "b"]; ["a/"; ""]; [""; ""]]
  = [""; ""; "a"; "a/b"; "a"; "b"; "/a"; "/"; "a/b"; "a"; ""].
Proof. vm_compute. reflexivity. Qed.

End path_facts.

(** ** The whitelist loops *)

#[global] Arguments path.Join : simpl never.
#[global] Arguments knownLibrariesDirs : simpl never.

Section WhitelistFacts.

Context {L : Type}.
Implicit Types (gen : symbolsLoadedEventGenerator L) (soPath : string).

Lemma hasWhitelistedPrefix_true soPath (prefixes : list string) :
  hasWhitelistedPrefix soPath prefixes = true
  ↔ ∃ prefix, prefix ∈ prefixes ∧ strings.HasPrefix soPath prefix = true.
Proof.
  induction prefixes as [|q rest IH]; simpl.
  - split; [done|]. intros (? & Hin & _). by apply elem_of_nil in Hin.
  - destruct (strings.HasPrefix soPath q) eqn:Hq.
    + split; [|done]. intros _. exists q. split; [left|done].
    + rewrite IH. split.
      * intros (x & Hin & Hx). exists x. split; [by right|done].
      * intros (x & Hin & Hx). apply elem_of_cons in Hin as [->|Hin]; [congruence|eauto].
Qed.

Lemma hasWhitelistedLib_true soPath (libsDirectory : string) (libs : list string) :
  hasWhitelistedLib soPath libsDirectory libs = true
  ↔ ∃ wlLib, wlLib ∈ libs
      ∧ strings.HasPrefix soPath (path.Join [libsDirectory; wlLib]) = true.
Proof.
  induction libs as [|q rest IH]; simpl.
  - split; [done|]. intros (? & Hin & _). by apply elem_of_nil in Hin.
  - destruct (strings.HasPrefix soPath (path.Join [libsDirectory; q])) eqn:Hq.
    + split; [|done]. intros _. exists q. split; [left|done].
    + rewrite IH. split.
      * intros (x & Hin & Hx). exists x. split; [by right|done].
      * intros (x & Hin & Hx). apply elem_of_cons in Hin as [->|Hin]; [congruence|eauto].
Qed.

(** The scan of the directories looks at the first matching one only. *)
Lemma inWhitelistedLibsDir_first soPath (libs dirs : list string) (d : string) :
  FirstPrefixDir dirs soPath d →
  inWhitelistedLibsDir soPath libs dirs = hasWhitelistedLib soPath d libs.
Proof.
  intros (pre & post & -> & Hpre & Hd).
  induction Hpre as [|q pre Hq _ IH]; simpl.
  - by rewrite Hd.
  - by rewrite Hq.
Qed.

Lemma inWhitelistedLibsDir_none soPath (libs dirs : list string) :
  Forall (fun d => strings.HasPrefix soPath d = false) dirs →
  inWhitelistedLibsDir soPath libs dirs = false.
Proof. induction 1 as [|q dirs Hq _ IH]; simpl; [done|]. by rewrite Hq. Qed.

Lemma FirstPrefixDir_exists soPath (dirs : list string) (d : string) :
  d ∈ dirs → strings.HasPrefix soPath d = true →
  ∃ d0, FirstPrefixDir dirs soPath d0.
Proof.
  induction dirs as [|q dirs IH]; intros Hin Hd; [by apply elem_of_nil in Hin|].
  destruct (strings.HasPrefix soPath q) eqn:Hq.
  - exists q, [], dirs. by split_and!.
  - apply elem_of_cons in Hin as [->|Hin]; [congruence|].
    destruct (IH Hin Hd) as (d0 & pre & post & -> & Hpre & Hd0).
    exists d0, (q :: pre), post. split_and!; [done|by constructor|done].
Qed.

Lemma FirstPrefixDir_unique soPath (dirs : list string) (d1 d2 : string) :
  FirstPrefixDir dirs soPath d1 → FirstPrefixDir dirs soPath d2 → d1 = d2.
Proof.
  intros (pre1 & post1 & -> & Hpre1 & Hd1) (pre2 & post2 & Heq & Hpre2 & Hd2).
  revert pre2 Heq Hpre2. induction Hpre1 as [|q pre1 Hq _ IH]; intros pre2 Heq Hpre2.
  - destruct Hpre2 as [|q2 pre2 Hq2 _]; simpl in Heq; simplify_eq; [done|congruence].
  - destruct Hpre2 as [|q2 pre2 Hq2 Hpre2]; simpl in Heq; simplify_eq; [congruence|].
    by eapply IH.
Qed.

(** [isWhitelist] in terms of its three loops. *)
Lemma isWhitelist_true gen soPath :
  isWhitelist gen soPath = true
  ↔ (∃ prefix, prefix ∈ pathPrefixWhitelist gen
       ∧ strings.HasPrefix soPath prefix = true)
    ∨ (librariesWhitelist gen ≠ []
       ∧ inWhitelistedLibsDir soPath (librariesWhitelist gen) knownLibrariesDirs = true).
Proof.
  unfold isWhitelist. rewrite <- hasWhitelistedPrefix_true.
  destruct (hasWhitelistedPrefix soPath (pathPrefixWhitelist gen)); [by split; [left|]|].
  destruct (librariesWhitelist gen) as [|q libs].
  - change (0 <? length (@nil string))%nat with false. cbv iota.
    split; [done|]. by intros [|[]].
  - change (0 <? length (q :: libs))%nat with true. cbv iota.
    split; [by right|]. by intros [|[]].
Qed.

End WhitelistFacts.

(** ** Construction of the generator *)

Section InitFacts.

Context {L : Type}.
Implicit Types (loader : L) (watched wl : list string).

Lemma foldl_classify wl (libraries prefixes : list string) :
  foldl classify (libraries, prefixes) wl
  = (libraries ++ List.filter (fun p => negb (isPathPrefixRule p)) wl,
     prefixes ++ List.filter isPathPrefixRule wl).
Proof.
  revert libraries prefixes. induction wl as [|p wl IH]; intros libraries prefixes.
  - simpl. by rewrite !app_nil_r.
  - cbn [foldl List.filter].
    replace (classify (libraries, prefixes) p)
      with (if isPathPrefixRule p then (libraries, prefixes ++ [p])
            else (libraries ++ [p], prefixes)) by reflexivity.
    destruct (isPathPrefixRule p); cbn [negb]; rewrite IH;
      by rewrite <- app_assoc.
Qed.

Lemma init_soLoader loader watched wl :
  soLoader (initSymbolsLoadedEventGenerator loader watched wl) = loader.
Proof.
  unfold initSymbolsLoadedEventGenerator. by rewrite foldl_classify.
Qed.

Lemma init_pathPrefixWhitelist loader watched wl :
  pathPrefixWhitelist (initSymbolsLoadedEventGenerator loader watched wl)
  = List.filter isPathPrefixRule wl.
Proof.
  unfold initSymbolsLoadedEventGenerator. by rewrite foldl_classify.
Qed.

Lemma init_librariesWhitelist loader watched wl :
  librariesWhitelist (initSymbolsLoadedEventGenerator loader watched wl)
  = List.filter (fun p => negb (isPathPrefixRule p)) wl.
Proof.
  unfold initSymbolsLoadedEventGenerator. by rewrite foldl_classify.
Qed.

Lemma elem_of_pathPrefixWhitelist loader watched wl (rule : string) :
  rule ∈ pathPrefixWhitelist (initSymbolsLoadedEventGenerator loader watched wl)
  ↔ rule ∈ wl ∧ strings.HasPrefix rule "/" = true.
Proof.
  rewrite init_pathPrefixWhitelist, !list_elem_of_In, filter_In. done.
Qed.

Lemma elem_of_librariesWhitelist loader watched wl (rule : string) :
  rule ∈ librariesWhitelist (initSymbolsLoadedEventGenerator loader watched wl)
  ↔ rule ∈ wl ∧ strings.HasPrefix rule "/" = false.
Proof.
  rewrite init_librariesWhitelist, !list_elem_of_In, filter_In.
  unfold isPathPrefixRule. by rewrite negb_true_iff.
Qed.

Lemma lookup_foldl_insert_true (l : list string) (m : gmap string bool) (sym : string) :
  foldl (fun m sym => <[sym := true]> m) m l !! sym
  = if decide (sym ∈ l) then Some true else m !! sym.
Proof.
  revert m. induction l as [|x l IH]; intros m.
  - cbn [foldl]. destruct (decide (sym ∈ [])) as [Hin|_]; [|done].
    by apply elem_of_nil in Hin.
  - cbn [foldl]. rewrite IH.
    destruct (decide (sym ∈ l)) as [Hin|Hnin].
    + rewrite decide_True; [done|by right].
    + destruct (decide (sym = x)) as [->|Hne].
      * rewrite lookup_insert_eq. rewrite decide_True; [done|by left].
      * rewrite lookup_insert_ne by done.
        rewrite decide_False; [done|]. rewrite elem_of_cons. tauto.
Qed.

(** The watched map holds exactly the configured symbols. *)
Lemma init_watchedSymbols loader watched wl (sym : string) :
  map_index (watchedSymbols (initSymbolsLoadedEventGenerator loader watched wl)) sym = true
  ↔ sym ∈ watched.
Proof.
  unfold initSymbolsLoadedEventGenerator. rewrite foldl_classify.
  cbn [watchedSymbols]. unfold map_index. rewrite lookup_foldl_insert_true.
  case_decide; [done|]. rewrite lookup_empty. simpl. split; [done|tauto].
Qed.

End InitFacts.

(** ** The intersection loop *)

Section CollectFacts.

Context `{!MapRange}.

Lemma collectWatched_filter (watched : gmap string bool) (syms : list string) :
  collectWatched watched syms
  = filter (fun sym => map_index watched sym = true) syms.
Proof.
  unfold collectWatched.
  enough (∀ acc, foldl (fun acc sym => if map_index watched sym then acc ++ [sym] else acc)
                   acc syms
                 = acc ++ filter (fun sym => map_index watched sym = true) syms) as Hacc
    by apply (Hacc []).
  induction syms as [|x syms IH]; intros acc.
  - simpl. by rewrite app_nil_r.
  - cbn [foldl]. rewrite IH, filter_cons.
    destruct (map_index watched x) eqn:Hx.
    + rewrite decide_True by done. by rewrite <- app_assoc.
    + rewrite decide_False by done. done.
Qed.

Lemma range_keys_NoDup (m : gmap string bool) : NoDup (range_keys m).
Proof. rewrite range_keys_perm. apply NoDup_elements. Qed.

Lemma elem_of_range_keys (m : gmap string bool) (sym : string) :
  sym ∈ range_keys m ↔ sym ∈ dom m.
Proof. rewrite range_keys_perm. apply elem_of_elements. Qed.

Lemma collectWatched_NoDup (watched soSyms : gmap string bool) :
  NoDup (collectWatched watched (range_keys soSyms)).
Proof. rewrite collectWatched_filter. apply NoDup_filter, range_keys_NoDup. Qed.

Lemma elem_of_collectWatched (watched soSyms : gmap string bool) (sym : string) :
  sym ∈ collectWatched watched (range_keys soSyms)
  ↔ sym ∈ dom soSyms ∧ map_index watched sym = true.
Proof.
  rewrite collectWatched_filter, list_elem_of_filter, elem_of_range_keys. tauto.
Qed.

End CollectFacts.

(** ** Extraction *)

(** Extraction either succeeds, and then no required field has a defect, or
    fails with the error of the first required field that has one. *)
Lemma getSharedObjectInfo_cases (event : Event) :
  (∃ info, getSharedObjectInfo event = (info, None)
     ∧ Forall (fun fld => field_defect event fld = None) requiredFields)
  ∨ (∃ name ty why, (name, ty) ∈ requiredFields
       ∧ field_defect event (name, ty) = Some why
       ∧ getSharedObjectInfo event = (zeroObjInfo, Some (ExtractionError name why))).
Proof.
  unfold getSharedObjectInfo, parse.ArgUint64Val, parse.ArgUint32Val, parse.ArgStringVal.
  destruct (parse.findArg event "inode") as [v1|] eqn:H1;
    [destruct v1 eqn:Hv1|];
    try (right; eexists "inode", RUint64, _; unfold field_defect; cbn [fst snd];
         rewrite H1; split_and!; [unfold requiredFields; set_solver|reflexivity|reflexivity]).
  destruct (parse.findArg event "dev") as [v2|] eqn:H2;
    [destruct v2 eqn:Hv2|];
    try (right; eexists "dev", RUint32, _; unfold field_defect; cbn [fst snd];
         rewrite H2; split_and!; [unfold requiredFields; set_solver|reflexivity|reflexivity]).
  destruct (parse.findArg event "ctime") as [v3|] eqn:H3;
    [destruct v3 eqn:Hv3|];
    try (right; eexists "ctime", RUint64, _; unfold field_defect; cbn [fst snd];
         rewrite H3; split_and!; [unfold requiredFields; set_solver|reflexivity|reflexivity]).
  destruct (parse.findArg event "pathname") as [v4|] eqn:H4;
    [destruct v4 eqn:Hv4|];
    try (right; eexists "pathname", RString, _; unfold field_defect; cbn [fst snd];
         rewrite H4; split_and!; [unfold requiredFields; set_solver|reflexivity|reflexivity]).
  left. eexists. split; [reflexivity|].
  unfold requiredFields, field_defect. repeat constructor; cbn [fst snd].
  - by rewrite H1.
  - by rewrite H2.
  - by rewrite H3.
  - by rewrite H4.
Qed.

(** ** The derivation *)

Section DeriveFacts.

Context {L : Type} `{!DynamicSymbolsLoader L} `{!MapRange}.
Implicit Types (gen : symbolsLoadedEventGenerator L) (loader : L).
Implicit Types (watched wl : list string) (event : Event) (info : ObjInfo).

Lemma deriveArgs_extraction_error gen event info (err : error) :
  getSharedObjectInfo event = (info, Some err) →
  deriveArgs gen event = (gen, (None, Some err)).
Proof. intros Hext. unfold deriveArgs. by rewrite Hext. Qed.

Lemma deriveArgs_whitelisted gen event info :
  getSharedObjectInfo event = (info, None) →
  isWhitelist gen (Path info) = true →
  deriveArgs gen event = (gen, (None, None)).
Proof.
  intros Hext Hwl. unfold deriveArgs. rewrite Hext. cbv beta iota. by rewrite Hwl.
Qed.

Lemma deriveArgs_resolved gen event info loader' (soSyms : gmap string bool) :
  getSharedObjectInfo event = (info, None) →
  isWhitelist gen (Path info) = false →
  GetExportedSymbols (soLoader gen) info = (loader', (soSyms, None)) →
  (deriveArgs gen event).2
  = if (0 <? length (collectWatched (watchedSymbols gen) (range_keys soSyms)))%nat
    then (Some [VString (Path info);
                VStrings (collectWatched (watchedSymbols gen) (range_keys soSyms))], None)
    else (None, None).
Proof.
  intros Hext Hwl Hload. unfold deriveArgs. rewrite Hext. cbv beta iota.
  rewrite Hwl, Hload. cbv beta iota. by destruct (0 <? _)%nat.
Qed.

(** C1: when the raw event extracts, its path is not whitelisted and the
    loader resolves the exported symbols, the derivation returns the path
    with a duplicate-free list of exactly the exported symbols that are
    watched if there is any such symbol, and returns [(nil, nil)] if there
    is none.  The exported symbols are the keys of the map the loader
    returns, the watched symbols the configured list; the statement holds
    for every order in which the map may be ranged over. *)
Theorem deriveArgs_watched_intersection loader loader' watched wl event info
    (soSyms : gmap string bool) :
  getSharedObjectInfo event = (info, None) →
  isWhitelist (initSymbolsLoadedEventGenerator loader watched wl) (Path info) = false →
  GetExportedSymbols loader info = (loader', (soSyms, None)) →
  (dom soSyms ∩ list_to_set watched ≠ (∅ : gset string) →
     ∃ matches,
       (deriveArgs (initSymbolsLoadedEventGenerator loader watched wl) event).2
       = (Some [VString (Path info); VStrings matches], None)
       ∧ NoDup matches
       ∧ (list_to_set matches : gset string) = dom soSyms ∩ list_to_set watched)
  ∧ (dom soSyms ∩ list_to_set watched = (∅ : gset string) →
       (deriveArgs (initSymbolsLoadedEventGenerator loader watched wl) event).2
       = (None, None)).
Proof.
  intros Hext Hwl Hload.
  pose proof (deriveArgs_resolved
    (initSymbolsLoadedEventGenerator loader watched wl) event info loader' soSyms
    Hext Hwl) as Hres.
  rewrite init_soLoader in Hres. specialize (Hres Hload).
  set (matches := collectWatched
    (watchedSymbols (initSymbolsLoadedEventGenerator loader watched wl))
    (range_keys soSyms)) in *.
  assert ((list_to_set matches : gset string) = dom soSyms ∩ list_to_set watched)
    as Hset.
  { apply set_eq. intros sym. subst matches.
    rewrite elem_of_list_to_set, elem_of_collectWatched, elem_of_intersection,
      elem_of_list_to_set, init_watchedSymbols. done. }
  split.
  - intros Hne. exists matches. split_and!; [|apply collectWatched_NoDup|done].
    rewrite Hres. destruct matches as [|sym matches]; [|done].
    by rewrite list_to_set_nil in Hset.
  - intros Hempty. rewrite Hres. destruct matches as [|sym matches]; [done|].
    rewrite Hempty in Hset. exfalso.
    apply (not_elem_of_empty (C := gset string) sym). rewrite <- Hset.
    apply elem_of_list_to_set. by left.
Qed.

(** C3: when the raw event extracts and its path starts with a whitelist
    entry that has a leading path separator, the derivation returns
    [(nil, nil)] without consulting the loader. *)
Theorem deriveArgs_path_prefix_rule loader watched wl event info (rule : string) :
  getSharedObjectInfo event = (info, None) →
  rule ∈ wl →
  strings.HasPrefix rule "/" = true →
  strings.HasPrefix (Path info) rule = true →
  deriveArgs (initSymbolsLoadedEventGenerator loader watched wl) event
  = (initSymbolsLoadedEventGenerator loader watched wl, (None, None)).
Proof.
  intros Hext Hin Hrule Hpre. apply (deriveArgs_whitelisted _ _ info Hext).
  apply isWhitelist_true. left. exists rule. split; [|done].
  by apply elem_of_pathPrefixWhitelist.
Qed.

(** C4: when the raw event extracts, [d] is the first known libraries
    directory that is a prefix of its path, and the path starts with [d]
    joined with a whitelist entry that has no leading path separator, the
    derivation returns [(nil, nil)] without consulting the loader. *)
Theorem deriveArgs_library_rule loader watched wl event info (d rule : string) :
  getSharedObjectInfo event = (info, None) →
  FirstPrefixDir knownLibrariesDirs (Path info) d →
  rule ∈ wl →
  strings.HasPrefix rule "/" = false →
  strings.HasPrefix (Path info) (path.Join [d; rule]) = true →
  deriveArgs (initSymbolsLoadedEventGenerator loader watched wl) event
  = (initSymbolsLoadedEventGenerator loader watched wl, (None, None)).
Proof.
  intros Hext Hfirst Hin Hrule Hpre. apply (deriveArgs_whitelisted _ _ info Hext).
  assert (rule ∈ librariesWhitelist (initSymbolsLoadedEventGenerator loader watched wl))
    as Hlib by by apply elem_of_librariesWhitelist.
  apply isWhitelist_true. right. split.
  - intros Hnil. rewrite Hnil in Hlib. by apply elem_of_nil in Hlib.
  - rewrite (inWhitelistedLibsDir_first _ _ _ d Hfirst).
    apply hasWhitelistedLib_true. eauto.
Qed.

(** C5: for a path with more than one known libraries directory as a
    prefix, with [d] the first of them in the list, [isWhitelist] holds
    exactly when a path-prefix rule matches or a library rule joined with
    [d] matches: the rules joined with any other matching directory [d']
    play no part. *)
Theorem isWhitelist_first_dir_only gen (soPath d d' : string) :
  FirstPrefixDir knownLibrariesDirs soPath d →
  d' ∈ knownLibrariesDirs →
  d' ≠ d →
  strings.HasPrefix soPath d' = true →
  (isWhitelist gen soPath = true
   ↔ (∃ prefix, prefix ∈ pathPrefixWhitelist gen
        ∧ strings.HasPrefix soPath prefix = true)
     ∨ (∃ wlLib, wlLib ∈ librariesWhitelist gen
          ∧ strings.HasPrefix soPath (path.Join [d; wlLib]) = true)).
Proof.
  intros Hfirst _ _ _.
  rewrite isWhitelist_true, (inWhitelistedLibsDir_first _ _ _ d Hfirst),
    hasWhitelistedLib_true.
  split; intros [Hp|Hl]; [by left|right; tauto|by left|right].
  split; [|done]. destruct Hl as (wlLib & Hin & _).
  intros Hnil. rewrite Hnil in Hin. by apply elem_of_nil in Hin.
Qed.

(** C7: when the raw event extracts, its path is not whitelisted and the
    loader reports an error, the derivation returns [(nil, err)] with that
    very error. *)
Theorem deriveArgs_resolution_error gen event info loader'
    (soSyms : gmap string bool) (err : error) :
  getSharedObjectInfo event = (info, None) →
  isWhitelist gen (Path info) = false →
  GetExportedSymbols (soLoader gen) info = (loader', (soSyms, Some err)) →
  (deriveArgs gen event).2 = (None, Some err).
Proof.
  intros Hext Hwl Hload. unfold deriveArgs. rewrite Hext. cbv beta iota.
  by rewrite Hwl, Hload.
Qed.

(** C8: every derivation ends in exactly one of the three outcomes
    suppressed [(nil, nil)], derived (arguments, no error) and failed (no
    arguments, an error); it never returns arguments together with an
    error, and derived arguments are the extracted path followed by a
    non-empty list of matched symbols, and nothing else. *)
Theorem deriveArgs_outcomes gen event :
  ((suppressed (deriveArgs gen event).2
      ∧ ¬ derived (deriveArgs gen event).2 ∧ ¬ failed (deriveArgs gen event).2)
   ∨ (derived (deriveArgs gen event).2
      ∧ ¬ suppressed (deriveArgs gen event).2 ∧ ¬ failed (deriveArgs gen event).2)
   ∨ (failed (deriveArgs gen event).2
      ∧ ¬ suppressed (deriveArgs gen event).2 ∧ ¬ derived (deriveArgs gen event).2))
  ∧ ¬ (is_Some (deriveArgs gen event).2.1 ∧ is_Some (deriveArgs gen event).2.2)
  ∧ (∀ args, (deriveArgs gen event).2.1 = Some args →
       ∃ matches, matches ≠ []
         ∧ args = [VString (Path (getSharedObjectInfo event).1); VStrings matches]).
Proof.
  assert (∀ res : option (list value) * option error,
    res = (None, None) → suppressed res ∧ ¬ derived res ∧ ¬ failed res) as Hsup.
  { intros res ->. unfold suppressed, derived, failed. simpl.
    split_and!; [done|done|by intros [[? [=]] _]|by intros [_ [? [=]]]]. }
  assert (∀ (res : option (list value) * option error) err,
    res = (None, Some err) → failed res ∧ ¬ suppressed res ∧ ¬ derived res) as Hfail.
  { intros res err ->. unfold suppressed, derived, failed. simpl.
    split_and!; [done|by eexists|by intros [_ [=]]|by intros [_ [=]]]. }
  assert (∀ (res : option (list value) * option error) args,
    res = (Some args, None) → derived res ∧ ¬ suppressed res ∧ ¬ failed res) as Hder.
  { intros res args ->. unfold suppressed, derived, failed. simpl.
    split_and!; [by eexists|done|by intros [[=] _]|by intros [[=] _]]. }
  unfold deriveArgs.
  destruct (getSharedObjectInfo event) as [info [err|]]; cbv beta iota.
  { split_and!; [right; right; by eapply Hfail| |simpl; done].
    simpl. by intros [[? [=]] _]. }
  destruct (isWhitelist gen (Path info)).
  { split_and!; [left; by eapply Hsup| |simpl; done].
    simpl. by intros [[? [=]] _]. }
  destruct (GetExportedSymbols (soLoader gen) info) as [loader' [soSyms [err|]]];
    cbv beta iota.
  { split_and!; [right; right; by eapply Hfail| |simpl; done].
    simpl. by intros [[? [=]] _]. }
  destruct (collectWatched (watchedSymbols gen) (range_keys soSyms))
    as [|sym matches] eqn:Hm.
  { split_and!; [left; by eapply Hsup| |simpl; done].
    simpl. by intros [[? [=]] _]. }
  change (0 <? length (sym :: matches))%nat with true. cbv beta iota.
  split_and!; [right; left; by eapply Hder| |].
  - simpl. by intros [_ [? [=]]].
  - simpl. intros args [= <-]. by exists (sym :: matches).
Qed.

(** C9: reordering the path-prefix rules, the library rules being the
    same, does not change whether a path is whitelisted. *)
Theorem isWhitelist_prefix_order gen1 gen2 (soPath : string) :
  pathPrefixWhitelist gen1 ≡ₚ pathPrefixWhitelist gen2 →
  librariesWhitelist gen1 = librariesWhitelist gen2 →
  isWhitelist gen1 soPath = isWhitelist gen2 soPath.
Proof.
  intros Hperm Hlibs.
  destruct (isWhitelist gen2 soPath) eqn:H2.
  - apply isWhitelist_true. apply isWhitelist_true in H2.
    destruct H2 as [(prefix & Hin & Hp)|Hl].
    + left. exists prefix. by rewrite Hperm.
    + right. by rewrite Hlibs.
  - destruct (isWhitelist gen1 soPath) eqn:H1; [|done].
    rewrite <- H2. symmetry. apply isWhitelist_true. apply isWhitelist_true in H1.
    destruct H1 as [(prefix & Hin & Hp)|Hl].
    + left. exists prefix. by rewrite <- Hperm.
    + right. by rewrite <- Hlibs.
Qed.

End DeriveFacts.

(** C6: when one of the four required fields of the raw event is absent or
    has the wrong underlying representation, the derivation returns
    [(nil, err)] where [err] names a required field with that defect; the
    result does not depend on the generator, and the generator, its loader
    included, is left as it was, whatever the loader is. *)
Theorem deriveArgs_extraction_failure (event : Event) (fld : string * repr) :
  fld ∈ requiredFields →
  field_defect event fld ≠ None →
  ∃ name ty why,
    (name, ty) ∈ requiredFields
    ∧ field_defect event (name, ty) = Some why
    ∧ ∀ (L : Type) (ops : DynamicSymbolsLoader L) (order : MapRange)
        (gen : symbolsLoadedEventGenerator L),
        deriveArgs gen event = (gen, (None, Some (ExtractionError name why))).
Proof.
  intros Hin Hdefect.
  destruct (getSharedObjectInfo_cases event)
    as [(info & _ & Hall)|(name & ty & why & Hreq & Hwhy & Hext)].
  - rewrite Forall_forall in Hall. by specialize (Hall fld Hin).
  - exists name, ty, why. split_and!; [done|done|].
    intros L ops order gen. by eapply deriveArgs_extraction_error.
Qed.

(** C10: an empty whitelist entry is a library rule; a known libraries
    directory joined with it is that directory without its trailing
    separator; so every path under a known libraries directory is
    whitelisted. *)
Theorem isWhitelist_empty_rule {L : Type} (loader : L) (watched wl : list string) :
  "" ∈ wl →
  "" ∈ librariesWhitelist (initSymbolsLoadedEventGenerator loader watched wl)
  ∧ (∀ d, d ∈ knownLibrariesDirs → (path.Join [d; ""] ++ "/")%string = d)
  ∧ (∀ soPath d, d ∈ knownLibrariesDirs → strings.HasPrefix soPath d = true →
       isWhitelist (initSymbolsLoadedEventGenerator loader watched wl) soPath = true).
Proof.
  intros Hin.
  assert ("" ∈ librariesWhitelist (initSymbolsLoadedEventGenerator loader watched wl))
    as Hlib by by apply elem_of_librariesWhitelist.
  assert (∀ d, d ∈ knownLibrariesDirs → (path.Join [d; ""] ++ "/")%string = d) as Hjoin.
  { intros d Hd. unfold knownLibrariesDirs in Hd.
    repeat (apply elem_of_cons in Hd as [->|Hd]; [by vm_compute|]).
    by apply elem_of_nil in Hd. }
  split_and!; [done|done|].
  intros soPath d Hd Hpre.
  destruct (FirstPrefixDir_exists soPath knownLibrariesDirs d Hd Hpre) as [d0 Hfirst].
  apply isWhitelist_true. right. split.
  - intros Hnil. rewrite Hnil in Hlib. by apply elem_of_nil in Hlib.
  - rewrite (inWhitelistedLibsDir_first _ _ _ d0 Hfirst).
    apply hasWhitelistedLib_true. exists "". split; [done|].
    destruct Hfirst as (pre & post & Heq & _ & Hd0).
    apply (HasPrefix_app_l _ _ "/"). rewrite Hjoin; [done|].
    rewrite Heq. apply elem_of_app. right. by left.
Qed.

(** ** The unit test and the theorems at sample inputs *)

(** Every case of the table passes. *)
Example unit_test_passes : Forall testPasses testCases.
Proof.
  unfold testCases.
  repeat (apply List.Forall_cons); [..|apply List.Forall_nil];
    (split; [vm_compute; reflexivity|]); cbv beta iota.
  - vm_compute; reflexivity.
  - eexists. split; [vm_compute; reflexivity|]. reflexivity.
  - eexists. split; [vm_compute; reflexivity|]. apply perm_skip, perm_swap.
  - eexists. split; [vm_compute; reflexivity|]. reflexivity.
  - vm_compute; reflexivity.
  - vm_compute; reflexivity.
  - vm_compute; reflexivity.
Qed.

Lemma deriveArgs_watched_intersection_witness :
  ∃ matches,
    (deriveArgs (initSymbolsLoadedEventGenerator sampleLoader sampleWatched []) sampleEvent).2
    = (Some [VString "/opt/app/libfoo.so"; VStrings matches], None)
    ∧ NoDup matches
    ∧ (list_to_set matches : gset string)
      = dom (default ∅ (cache sampleLoader !! info sampleSO)) ∩ list_to_set sampleWatched.
Proof.
  refine (proj1 (deriveArgs_watched_intersection sampleLoader sampleLoader
    sampleWatched [] sampleEvent (info sampleSO)
    (default ∅ (cache sampleLoader !! info sampleSO)) _ _ _) _).
  - vm_compute. reflexivity.
  - vm_compute. reflexivity.
  - reflexivity.
  - intros Hempty.
    assert ("open" ∈ (∅ : gset string)) as Hin; [|by apply not_elem_of_empty in Hin].
    rewrite <- Hempty. apply elem_of_intersection. split.
    + apply elem_of_dom. exists true. vm_compute. reflexivity.
    + apply elem_of_list_to_set. left.
Defined.

Lemma deriveArgs_path_prefix_rule_witness :
  deriveArgs (initSymbolsLoadedEventGenerator eagerLoader sampleWatched ["/tmp/test"])
    (generateSOLoadedEvent 1 (so_at "/tmp/test.so"))
  = (initSymbolsLoadedEventGenerator eagerLoader sampleWatched ["/tmp/test"], (None, None)).
Proof.
  apply (deriveArgs_path_prefix_rule eagerLoader sampleWatched ["/tmp/test"]
    (generateSOLoadedEvent 1 (so_at "/tmp/test.so")) (so_at "/tmp/test.so") "/tmp/test").
  - vm_compute. reflexivity.
  - left.
  - vm_compute. reflexivity.
  - vm_compute. reflexivity.
Defined.

Lemma lib_is_first_dir_of_test_so : FirstPrefixDir knownLibrariesDirs "/lib/test.so" "/lib/".
Proof.
  exists ["/usr/lib/x86_64-linux-gnu/"; "/usr/lib64/"; "/usr/lib/"; "/lib64/"], [].
  split; [reflexivity|split; [|vm_compute; reflexivity]].
  repeat (apply List.Forall_cons; [vm_compute; reflexivity|]). apply List.Forall_nil.
Defined.

Lemma deriveArgs_library_rule_witness :
  deriveArgs (initSymbolsLoadedEventGenerator eagerLoader sampleWatched ["test"])
    (generateSOLoadedEvent 1 (so_at "/lib/test.so"))
  = (initSymbolsLoadedEventGenerator eagerLoader sampleWatched ["test"], (None, None)).
Proof.
  apply (deriveArgs_library_rule eagerLoader sampleWatched ["test"]
    (generateSOLoadedEvent 1 (so_at "/lib/test.so")) (so_at "/lib/test.so") "/lib/" "test").
  - vm_compute. reflexivity.
  - exact lib_is_first_dir_of_test_so.
  - left.
  - vm_compute. reflexivity.
  - vm_compute. reflexivity.
Defined.

Lemma multiarch_first_dir :
  FirstPrefixDir knownLibrariesDirs multiarchPath "/usr/lib/x86_64-linux-gnu/".
Proof.
  exists [], ["/usr/lib64/"; "/usr/lib/"; "/lib64/"; "/lib/"].
  split; [reflexivity|split; [apply List.Forall_nil|vm_compute; reflexivity]].
Defined.

(** The library rule of [multiarchGen] joined with the broader directory
    [/usr/lib/] is a prefix of the path, and yet the path is not
    whitelisted. *)
Lemma isWhitelist_first_dir_only_witness :
  strings.HasPrefix multiarchPath "/usr/lib/" = true
  ∧ strings.HasPrefix multiarchPath (path.Join ["/usr/lib/"; "x86_64-linux-gnu/foo"]) = true
  ∧ isWhitelist multiarchGen multiarchPath = false.
Proof.
  split; [vm_compute; reflexivity|]. split; [vm_compute; reflexivity|].
  destruct (isWhitelist multiarchGen multiarchPath) eqn:Hwl; [exfalso|reflexivity].
  apply (isWhitelist_first_dir_only multiarchGen multiarchPath
    "/usr/lib/x86_64-linux-gnu/" "/usr/lib/") in Hwl.
  - destruct Hwl as [(prefix & Hin & _)|(wlLib & Hin & Hpre)].
    + vm_compute in Hin. exact (proj1 (elem_of_nil prefix) Hin).
    + assert (wlLib = "x86_64-linux-gnu/foo") as ->.
      { vm_compute in Hin. apply elem_of_cons in Hin as [Heq|Hin]; [exact Heq|].
        destruct (proj1 (elem_of_nil wlLib) Hin). }
      vm_compute in Hpre. discriminate Hpre.
  - exact multiarch_first_dir.
  - unfold knownLibrariesDirs. right. right. left.
  - discriminate.
  - vm_compute. reflexivity.
Defined.

Lemma deriveArgs_extraction_failure_witness :
  ∃ name ty why,
    (name, ty) ∈ requiredFields
    ∧ field_defect brokenEvent (name, ty) = Some why
    ∧ ∀ (L : Type) (ops : DynamicSymbolsLoader L) (order : MapRange)
        (gen : symbolsLoadedEventGenerator L),
        deriveArgs gen brokenEvent = (gen, (None, Some (ExtractionError name why))).
Proof.
  apply (deriveArgs_extraction_failure brokenEvent ("dev", RUint32)).
  - unfold requiredFields. right. left.
  - vm_compute. discriminate.
Defined.

Lemma deriveArgs_resolution_error_witness :
  (deriveArgs (initSymbolsLoadedEventGenerator failingLoader sampleWatched []) sampleEvent).2
  = (None, Some (ResolutionError "no such file or directory")).
Proof.
  apply (deriveArgs_resolution_error
    (initSymbolsLoadedEventGenerator failingLoader sampleWatched []) sampleEvent
    (info sampleSO)
    {| calls := [info sampleSO]; answer := answer failingLoader |} ∅).
  - vm_compute. reflexivity.
  - vm_compute. reflexivity.
  - reflexivity.
Defined.

Lemma isWhitelist_prefix_order_witness :
  isWhitelist orderedGen "/opt/app/libfoo.so" = isWhitelist reorderedGen "/opt/app/libfoo.so".
Proof.
  apply (isWhitelist_prefix_order orderedGen reorderedGen "/opt/app/libfoo.so").
  - apply perm_swap.
  - reflexivity.
Defined.

Lemma isWhitelist_empty_rule_witness :
  isWhitelist (initSymbolsLoadedEventGenerator initLoaderMock sampleWatched [""])
    "/usr/lib64/libc.so.6" = true.
Proof.
  refine (proj2 (proj2 (isWhitelist_empty_rule initLoaderMock sampleWatched [""] _))
    "/usr/lib64/libc.so.6" "/usr/lib64/" _ _).
  - left.
  - unfold knownLibrariesDirs. right. left.
  - vm_compute. reflexivity.
Defined.

(** The same inputs, run. *)
Example brokenEvent_run :
  deriveArgs (initSymbolsLoadedEventGenerator eagerLoader sampleWatched []) brokenEvent
  = (initSymbolsLoadedEventGenerator eagerLoader sampleWatched [],
     (None, Some (ExtractionError "inode" FieldMistyped))).
Proof. vm_compute. reflexivity. Qed.

Example failingLoader_run :
  deriveArgs (initSymbolsLoadedEventGenerator failingLoader sampleWatched []) sampleEvent
  = ({| soLoader := {| calls := [info sampleSO]; answer := answer failingLoader |};
        watchedSymbols := list_to_map ((fun sym => (sym, true)) <$> sampleWatched);
        pathPrefixWhitelist := [];
        librariesWhitelist := [] |},
     (None, Some (ResolutionError "no such file or directory"))).
Proof. vm_compute. reflexivity. Qed.

Example eagerLoader_not_called_when_whitelisted :
  calls (soLoader (deriveArgs
    (initSymbolsLoadedEventGenerator eagerLoader sampleWatched ["test"])
    (generateSOLoadedEvent 1 (so_at "/lib/test.so"))).1) = [].
Proof. vm_compute. reflexivity. Qed.

Example eagerLoader_called_once_otherwise :
  calls (soLoader (deriveArgs
    (initSymbolsLoadedEventGenerator eagerLoader sampleWatched ["test"])
    (generateSOLoadedEvent 1 (so_at "/lib/other.so"))).1) = [so_at "/lib/other.so"].
Proof. vm_compute. reflexivity. Qed.

(** * Further properties of the code *)

(** ** The whitelist, from the configuration *)

Lemma filter_partition_perm {A : Type} (f : A → bool) (l : list A) :
  List.filter f l ++ List.filter (fun x => negb (f x)) l ≡ₚ l.
Proof.
  induction l as [|x l IH]; [done|]. cbn [List.filter].
  destruct (f x); cbn [negb].
  - cbn [app]. by apply perm_skip.
  - rewrite <- Permutation_middle. by apply perm_skip.
Qed.

Lemma filter_sublist {A : Type} (f : A → bool) (l : list A) :
  List.filter f l `sublist_of` l.
Proof.
  induction l as [|x l IH]; [done|]. cbn [List.filter].
  destruct (f x); [by apply sublist_skip|by apply sublist_cons].
Qed.

Lemma FirstPrefixDir_elem_of (dirs : list string) (soPath d : string) :
  FirstPrefixDir dirs soPath d → d ∈ dirs ∧ strings.HasPrefix soPath d = true.
Proof.
  intros (pre & post & -> & _ & Hd). split; [|done].
  apply elem_of_app. right. by left.
Qed.

Section WhitelistConfig.

Context {L : Type}.
Implicit Types (gen : symbolsLoadedEventGenerator L) (loader : L).
Implicit Types (watched wl : list string) (soPath : string).

(** The directory scan succeeds exactly when a library rule matches under
    the first directory that is a prefix of the path. *)
Lemma inWhitelistedLibsDir_true soPath (libs dirs : list string) :
  inWhitelistedLibsDir soPath libs dirs = true
  ↔ ∃ d wlLib, FirstPrefixDir dirs soPath d ∧ wlLib ∈ libs
      ∧ strings.HasPrefix soPath (path.Join [d; wlLib]) = true.
Proof.
  split.
  - induction dirs as [|q dirs IH]; cbn [inWhitelistedLibsDir]; [done|].
    destruct (strings.HasPrefix soPath q) eqn:Hq.
    + intros Hscan. apply hasWhitelistedLib_true in Hscan as (wlLib & Hlib & Hpre).
      exists q, wlLib. split_and!; [|done|done]. exists [], dirs. by split_and!.
    + intros Hscan. destruct (IH Hscan) as (d & wlLib & Hfirst & Hlib & Hpre).
      exists d, wlLib. split_and!; [|done|done].
      destruct Hfirst as (pre & post & -> & Hall & Hd).
      exists (q :: pre), post. split_and!; [done|by constructor|done].
  - intros (d & wlLib & Hfirst & Hlib & Hpre).
    rewrite (inWhitelistedLibsDir_first _ _ _ d Hfirst).
    apply hasWhitelistedLib_true. eauto.
Qed.

(** X1: the construction sorts every whitelist entry into exactly one of
    the two rule lists: the entries with a leading separator, in their
    order, are the path-prefix rules, the others, in their order, the
    library rules, and nothing is lost or added. *)
Theorem init_whitelist_partition loader watched wl :
  pathPrefixWhitelist (initSymbolsLoadedEventGenerator loader watched wl)
    ++ librariesWhitelist (initSymbolsLoadedEventGenerator loader watched wl) ≡ₚ wl
  ∧ pathPrefixWhitelist (initSymbolsLoadedEventGenerator loader watched wl)
      `sublist_of` wl
  ∧ librariesWhitelist (initSymbolsLoadedEventGenerator loader watched wl)
      `sublist_of` wl
  ∧ Forall (fun rule => strings.HasPrefix rule "/" = true)
      (pathPrefixWhitelist (initSymbolsLoadedEventGenerator loader watched wl))
  ∧ Forall (fun rule => strings.HasPrefix rule "/" = false)
      (librariesWhitelist (initSymbolsLoadedEventGenerator loader watched wl)).
Proof.
  split_and!.
  - rewrite init_pathPrefixWhitelist, init_librariesWhitelist.
    apply filter_partition_perm.
  - rewrite init_pathPrefixWhitelist. apply filter_sublist.
  - rewrite init_librariesWhitelist. apply filter_sublist.
  - apply Forall_forall. intros rule Hin.
    by apply elem_of_pathPrefixWhitelist in Hin as [_ ?].
  - apply Forall_forall. intros rule Hin.
    by apply elem_of_librariesWhitelist in Hin as [_ ?].
Qed.

(** X2: the generator depends on the watched symbols as a set only: two
    lists with the same elements, in any order and with any repetitions,
    give the same generator. *)
Theorem init_watched_as_set loader watched watched' wl :
  (∀ sym, sym ∈ watched ↔ sym ∈ watched') →
  initSymbolsLoadedEventGenerator loader watched wl
  = initSymbolsLoadedEventGenerator loader watched' wl.
Proof.
  intros Hsame. unfold initSymbolsLoadedEventGenerator.
  rewrite foldl_classify. f_equal.
  apply map_eq. intros sym. rewrite !lookup_foldl_insert_true.
  destruct (decide (sym ∈ watched)) as [Hin|Hnin].
  - rewrite decide_True; [done|by apply Hsame].
  - rewrite decide_False; [done|]. by rewrite <- Hsame.
Qed.

(** X3: library rules only reach paths under a known libraries directory:
    when there is no library rule, or no known directory is a prefix of the
    path, the path is whitelisted exactly when a path-prefix rule is a
    prefix of it. *)
Theorem isWhitelist_without_library_scope gen soPath :
  librariesWhitelist gen = []
  ∨ Forall (fun d => strings.HasPrefix soPath d = false) knownLibrariesDirs →
  (isWhitelist gen soPath = true
   ↔ ∃ prefix, prefix ∈ pathPrefixWhitelist gen
       ∧ strings.HasPrefix soPath prefix = true).
Proof.
  intros Hscope. rewrite isWhitelist_true. split; [|by left].
  intros [Hprefix|[Hlibs Hscan]]; [done|].
  destruct Hscope as [Hnil|Hnone]; [done|].
  by rewrite inWhitelistedLibsDir_none in Hscan.
Qed.

(** X4: for a generator built from a whitelist configuration, a path is
    whitelisted exactly when it starts with an entry that has a leading
    separator, or with the first known libraries directory that is a prefix
    of it joined with an entry that has none. *)
Theorem isWhitelist_init_characterisation loader watched wl soPath :
  isWhitelist (initSymbolsLoadedEventGenerator loader watched wl) soPath = true
  ↔ (∃ rule, rule ∈ wl ∧ strings.HasPrefix rule "/" = true
       ∧ strings.HasPrefix soPath rule = true)
    ∨ (∃ d rule, FirstPrefixDir knownLibrariesDirs soPath d
         ∧ rule ∈ wl ∧ strings.HasPrefix rule "/" = false
         ∧ strings.HasPrefix soPath (path.Join [d; rule]) = true).
Proof.
  rewrite isWhitelist_true, inWhitelistedLibsDir_true. split.
  - intros [(rule & Hin & Hpre)|[_ (d & rule & Hfirst & Hin & Hpre)]].
    + left. exists rule. apply elem_of_pathPrefixWhitelist in Hin. tauto.
    + right. exists d, rule. apply elem_of_librariesWhitelist in Hin. tauto.
  - intros [(rule & Hin & Hrule & Hpre)|(d & rule & Hfirst & Hin & Hrule & Hpre)].
    + left. exists rule. split; [|done]. by apply elem_of_pathPrefixWhitelist.
    + assert (rule ∈ librariesWhitelist
        (initSymbolsLoadedEventGenerator loader watched wl)) as Hlib
        by by apply elem_of_librariesWhitelist.
      right. split; [|by eauto].
      intros Hnil. rewrite Hnil in Hlib. by apply elem_of_nil in Hlib.
Qed.

(** X5: adding entries to the whitelist configuration never takes a path
    out of the whitelist, whatever the loader and the watched symbols. *)
Theorem isWhitelist_init_monotone loader loader' watched watched' wl wl' soPath :
  (∀ rule, rule ∈ wl → rule ∈ wl') →
  isWhitelist (initSymbolsLoadedEventGenerator loader watched wl) soPath = true →
  isWhitelist (initSymbolsLoadedEventGenerator loader' watched' wl') soPath = true.
Proof.
  intros Hsub. rewrite !isWhitelist_true, !inWhitelistedLibsDir_true.
  intros [(rule & Hin & Hpre)|[_ (d & rule & Hfirst & Hin & Hpre)]].
  - left. exists rule. split; [|done].
    apply elem_of_pathPrefixWhitelist. apply elem_of_pathPrefixWhitelist in Hin.
    split; [apply Hsub|]; tauto.
  - assert (rule ∈ librariesWhitelist
      (initSymbolsLoadedEventGenerator loader' watched' wl')) as Hlib.
    { apply elem_of_librariesWhitelist. apply elem_of_librariesWhitelist in Hin.
      split; [apply Hsub|]; tauto. }
    right. split; [|by eauto].
    intros Hnil. rewrite Hnil in Hlib. by apply elem_of_nil in Hlib.
Qed.

(** X6: a path-prefix rule whitelists everything below it: when a
    path-prefix rule is a prefix of a path, every extension of the path is
    whitelisted. *)
Theorem isWhitelist_prefix_rule_subtree gen soPath (prefix suffix : string) :
  prefix ∈ pathPrefixWhitelist gen →
  strings.HasPrefix soPath prefix = true →
  isWhitelist gen (soPath ++ suffix)%string = true.
Proof.
  intros Hin Hpre. apply isWhitelist_true. left. exists prefix. split; [done|].
  apply HasPrefix_spec in Hpre as [t ->]. apply HasPrefix_spec.
  exists (t ++ suffix)%string. apply string_app_assoc.
Qed.

End WhitelistConfig.

(** ** The known libraries directories *)

Lemma HasPrefix_comparable (s a b : string) :
  strings.HasPrefix s a = true → strings.HasPrefix s b = true →
  strings.HasPrefix a b = true ∨ strings.HasPrefix b a = true.
Proof.
  revert s b. induction a as [|x a IH]; intros s b Ha Hb.
  - right. apply HasPrefix_nil.
  - destruct b as [|y b]; [left; apply HasPrefix_nil|].
    destruct s as [|c s]; [done|].
    rewrite HasPrefix_cons, andb_true_iff, Ascii.eqb_eq in Ha, Hb.
    destruct Ha as [-> Ha], Hb as [<- Hb].
    rewrite !HasPrefix_cons, Ascii.eqb_refl. simpl. by eapply IH.
Qed.

(** X7: the first known libraries directory that is a prefix of a path is
    the most specific one: every other known directory that is a prefix of
    the path is a prefix of that first directory. *)
Theorem knownLibrariesDirs_first_most_specific (soPath d d' : string) :
  FirstPrefixDir knownLibrariesDirs soPath d →
  d' ∈ knownLibrariesDirs →
  strings.HasPrefix soPath d' = true →
  strings.HasPrefix d d' = true.
Proof.
  intros (pre & post & Heq & Hall & Hd) Hin Hd'.
  rewrite Forall_forall in Hall.
  assert (∀ q, q ∈ pre → q ≠ d') as Hpre.
  { intros q Hq ->. specialize (Hall d' Hq). congruence. }
  clear Hall. unfold knownLibrariesDirs in Heq, Hin.
  repeat (destruct pre as [|? pre]; cbn [app] in Heq;
          [injection Heq as <- <-|injection Heq as <- Heq]);
    try (by destruct pre);
    repeat (apply elem_of_cons in Hin as [->|Hin]);
    try (by apply elem_of_nil in Hin);
    try (vm_compute; reflexivity);
    try (destruct (HasPrefix_comparable soPath _ _ Hd Hd') as [Hc|Hc];
         vm_compute in Hc; discriminate Hc);
    exfalso; eapply Hpre; [|reflexivity]; set_solver.
Qed.

(** ** Extraction, field by field *)

Lemma ArgUint64Val_ok (event : Event) (name : string) :
  field_defect event (name, RUint64) = None →
  ∃ z, parse.findArg event name = Some (VUint64 z)
       ∧ parse.ArgUint64Val event name = (z, None).
Proof.
  unfold field_defect, parse.ArgUint64Val. cbn [fst snd].
  destruct (parse.findArg event name) as [[]|]; simpl; intros; try done; eauto.
Qed.

Lemma ArgUint64Val_err (event : Event) (name : string) (why : extraction_failure) :
  field_defect event (name, RUint64) = Some why →
  parse.ArgUint64Val event name = (0%Z, Some (ExtractionError name why)).
Proof.
  unfold field_defect, parse.ArgUint64Val. cbn [fst snd].
  destruct (parse.findArg event name) as [[]|]; simpl; intros [= <-]; done.
Qed.

Lemma ArgUint32Val_ok (event : Event) (name : string) :
  field_defect event (name, RUint32) = None →
  ∃ z, parse.findArg event name = Some (VUint32 z)
       ∧ parse.ArgUint32Val event name = (z, None).
Proof.
  unfold field_defect, parse.ArgUint32Val. cbn [fst snd].
  destruct (parse.findArg event name) as [[]|]; simpl; intros; try done; eauto.
Qed.

Lemma ArgUint32Val_err (event : Event) (name : string) (why : extraction_failure) :
  field_defect event (name, RUint32) = Some why →
  parse.ArgUint32Val event name = (0%Z, Some (ExtractionError name why)).
Proof.
  unfold field_defect, parse.ArgUint32Val. cbn [fst snd].
  destruct (parse.findArg event name) as [[]|]; simpl; intros [= <-]; done.
Qed.

Lemma ArgStringVal_ok (event : Event) (name : string) :
  field_defect event (name, RString) = None →
  ∃ str, parse.findArg event name = Some (VString str)
         ∧ parse.ArgStringVal event name = (str, None).
Proof.
  unfold field_defect, parse.ArgStringVal. cbn [fst snd].
  destruct (parse.findArg event name) as [[]|]; simpl; intros; try done; eauto.
Qed.

Lemma ArgStringVal_err (event : Event) (name : string) (why : extraction_failure) :
  field_defect event (name, RString) = Some why →
  parse.ArgStringVal event name = ("", Some (ExtractionError name why)).
Proof.
  unfold field_defect, parse.ArgStringVal. cbn [fst snd].
  destruct (parse.findArg event name) as [[]|]; simpl; intros [= <-]; done.
Qed.

(** X8: extraction checks the fields in the order inode, dev, ctime,
    pathname and stops at the first one that is absent or mistyped: the
    error names that field, and the object information returned with it is
    the zero value, not a partly filled one. *)
Theorem getSharedObjectInfo_first_defect (event : Event)
    (pre post : list (string * repr)) (fld : string * repr)
    (why : extraction_failure) :
  requiredFields = pre ++ fld :: post →
  Forall (fun f => field_defect event f = None) pre →
  field_defect event fld = Some why →
  getSharedObjectInfo event = (zeroObjInfo, Some (ExtractionError fld.1 why)).
Proof.
  intros Heq Hpre Hfld. unfold requiredFields in Heq.
  unfold getSharedObjectInfo.
  destruct pre as [|f1 pre]; cbn [app] in Heq;
    [injection Heq as <- <-|injection Heq as <- Heq].
  { by rewrite (ArgUint64Val_err _ _ _ Hfld). }
  apply Forall_cons in Hpre as [H1 Hpre].
  destruct (ArgUint64Val_ok _ _ H1) as (i & _ & ->). cbv beta iota.
  destruct pre as [|f2 pre]; cbn [app] in Heq;
    [injection Heq as <- <-|injection Heq as <- Heq].
  { by rewrite (ArgUint32Val_err _ _ _ Hfld). }
  apply Forall_cons in Hpre as [H2 Hpre].
  destruct (ArgUint32Val_ok _ _ H2) as (d & _ & ->). cbv beta iota.
  destruct pre as [|f3 pre]; cbn [app] in Heq;
    [injection Heq as <- <-|injection Heq as <- Heq].
  { by rewrite (ArgUint64Val_err _ _ _ Hfld). }
  apply Forall_cons in Hpre as [H3 Hpre].
  destruct (ArgUint64Val_ok _ _ H3) as (c & _ & ->). cbv beta iota.
  destruct pre as [|f4 pre]; cbn [app] in Heq;
    [injection Heq as <- <-|injection Heq as <- Heq].
  { by rewrite (ArgStringVal_err _ _ _ Hfld). }
  by destruct pre.
Qed.

(** X9: extraction succeeds whenever the four required fields are present
    with the right representation, wherever they stand among the arguments
    and whatever else the event carries; the object information then holds
    the values of the four fields and the mount namespace of the event. *)
Theorem getSharedObjectInfo_success (event : Event) :
  Forall (fun f => field_defect event f = None) requiredFields →
  ∃ i d c p,
    parse.findArg event "inode" = Some (VUint64 i)
    ∧ parse.findArg event "dev" = Some (VUint32 d)
    ∧ parse.findArg event "ctime" = Some (VUint64 c)
    ∧ parse.findArg event "pathname" = Some (VString p)
    ∧ getSharedObjectInfo event
      = ({| Id := {| Inode := i; Device := d; Ctime := c |};
            Path := p; ObjMountNS := MountNS event |}, None).
Proof.
  unfold requiredFields. intros Hall.
  apply Forall_cons in Hall as [H1 Hall]. apply Forall_cons in Hall as [H2 Hall].
  apply Forall_cons in Hall as [H3 Hall]. apply Forall_cons in Hall as [H4 _].
  destruct (ArgUint64Val_ok _ _ H1) as (i & Hi & Ei).
  destruct (ArgUint32Val_ok _ _ H2) as (d & Hd & Ed).
  destruct (ArgUint64Val_ok _ _ H3) as (c & Hc & Ec).
  destruct (ArgStringVal_ok _ _ H4) as (p & Hp & Ep).
  exists i, d, c, p. split_and!; try done.
  unfold getSharedObjectInfo. by rewrite Ei, Ed, Ec, Ep.
Qed.

(** ** The test's event builder and mock loader *)

Lemma getSharedObjectInfo_generated (pid : Z) (so : ObjInfo) :
  getSharedObjectInfo (generateSOLoadedEvent pid so)
  = ({| Id := Id so; Path := Path so; ObjMountNS := 0 |}, None).
Proof. by destruct so as [[i d c] p m]. Qed.

(** X10: extraction undoes the test's event builder up to the mount
    namespace: from the event built for an object it gives back the
    object's identity and path with mount namespace zero, hence the object
    itself exactly when the object's mount namespace is zero. *)
Theorem getSharedObjectInfo_generateSOLoadedEvent (pid : Z) (so : ObjInfo) :
  getSharedObjectInfo (generateSOLoadedEvent pid so)
  = ({| Id := Id so; Path := Path so; ObjMountNS := 0 |}, None)
  ∧ (getSharedObjectInfo (generateSOLoadedEvent pid so) = (so, None)
     ↔ ObjMountNS so = 0%Z).
Proof.
  split; [apply getSharedObjectInfo_generated|].
  rewrite getSharedObjectInfo_generated. destruct so as [id p m]. simpl.
  split; [by intros [= <-]|by intros ->].
Qed.

Lemma addSOSymbols_lookup (loader : symbolsLoaderMock) (so : soInstance) :
  ∃ symsMap : gmap string bool,
    cache (addSOSymbols loader so) = <[info so := symsMap]> (cache loader)
    ∧ ∀ sym, symsMap !! sym = if decide (sym ∈ syms so) then Some true else None.
Proof.
  eexists. split; [reflexivity|]. intros sym.
  rewrite lookup_foldl_insert_true. by rewrite lookup_empty.
Qed.

(** X11: what the mock loader is told about an object is what it answers
    for that object: the symbols added, each present, and no error; its
    answers for other objects are as before, and answering never changes
    it. *)
Theorem mock_GetExportedSymbols_addSOSymbols (loader : symbolsLoaderMock)
    (so : soInstance) (i : ObjInfo) :
  ∃ symsMap : gmap string bool,
    GetExportedSymbols (addSOSymbols loader so) i
    = (addSOSymbols loader so, (symsMap, None))
    ∧ if decide (i = info so)
      then ∀ sym, symsMap !! sym = if decide (sym ∈ syms so) then Some true else None
      else symsMap = default ∅ (cache loader !! i).
Proof.
  destruct (addSOSymbols_lookup loader so) as (m & Hcache & Hm).
  eexists. split; [reflexivity|]. rewrite Hcache.
  destruct (decide (i = info so)) as [->|Hne].
  - by rewrite lookup_insert_eq.
  - by rewrite lookup_insert_ne.
Qed.

(** X12: the unit test for any table entry whose object has mount
    namespace zero: the derivation never fails; it derives nothing when the
    object's path is whitelisted or no symbol of the object is watched; and
    otherwise it derives the path with a duplicate-free list of exactly the
    object's symbols that are watched. *)
Theorem runTestCase_general (tc : testCase) :
  ObjMountNS (info (tc_loadingSO tc)) = 0%Z →
  (runTestCase tc).2 = None
  ∧ (isWhitelist
       (initSymbolsLoadedEventGenerator (addSOSymbols initLoaderMock (tc_loadingSO tc))
          (tc_watchedSymbols tc) (tc_whitelistedLibs tc))
       (Path (info (tc_loadingSO tc))) = true →
     (runTestCase tc).1 = None)
  ∧ (isWhitelist
       (initSymbolsLoadedEventGenerator (addSOSymbols initLoaderMock (tc_loadingSO tc))
          (tc_watchedSymbols tc) (tc_whitelistedLibs tc))
       (Path (info (tc_loadingSO tc))) = false →
     ((∀ sym, sym ∈ syms (tc_loadingSO tc) → sym ∉ tc_watchedSymbols tc) →
        (runTestCase tc).1 = None)
     ∧ (∀ sym0, sym0 ∈ syms (tc_loadingSO tc) → sym0 ∈ tc_watchedSymbols tc →
          ∃ found,
            (runTestCase tc).1
            = Some [VString (Path (info (tc_loadingSO tc))); VStrings found]
            ∧ NoDup found
            ∧ ∀ sym, sym ∈ found
                ↔ sym ∈ syms (tc_loadingSO tc) ∧ sym ∈ tc_watchedSymbols tc)).
Proof.
  destruct tc as [name watched wl so expected]. cbn [tc_loadingSO tc_watchedSymbols
    tc_whitelistedLibs]. intros Hns. unfold runTestCase.
  cbn [tc_loadingSO tc_watchedSymbols tc_whitelistedLibs].
  set (loader := addSOSymbols initLoaderMock so).
  set (gen := initSymbolsLoadedEventGenerator loader watched wl).
  set (ev := generateSOLoadedEvent 1 (info so)).
  assert (getSharedObjectInfo ev = (info so, None)) as Hext.
  { subst ev. rewrite getSharedObjectInfo_generated.
    destruct so as [[id p m] ss]. cbn in Hns |- *. by subst m. }
  destruct (isWhitelist gen (Path (info so))) eqn:Hwl.
  { rewrite (deriveArgs_whitelisted gen ev (info so) Hext Hwl). by split_and!. }
  destruct (addSOSymbols_lookup initLoaderMock so) as (m & Hcache & Hm).
  assert (GetExportedSymbols (soLoader gen) (info so) = (loader, (m, None))) as Hload.
  { subst gen. rewrite init_soLoader. cbn [GetExportedSymbols symbolsLoaderMock_loader].
    subst loader. by rewrite Hcache, lookup_insert_eq. }
  pose proof (deriveArgs_resolved gen ev (info so) loader m Hext Hwl Hload) as Hres.
  pose proof (collectWatched_NoDup (watchedSymbols gen) m) as Hnodup.
  assert (∀ sym, sym ∈ collectWatched (watchedSymbols gen) (range_keys m)
                 ↔ sym ∈ syms so ∧ sym ∈ watched) as Hfound.
  { intros sym. subst gen.
    rewrite elem_of_collectWatched, elem_of_dom, Hm, init_watchedSymbols.
    destruct (decide (sym ∈ syms so)) as [Hin|Hnin].
    - split; [by intros [_ ?]|]. intros [_ ?]. split; [by eexists|done].
    - split; [by intros [[? [=]] _]|]. by intros [? _]. }
  destruct (collectWatched (watchedSymbols gen) (range_keys m)) as [|x found].
  - rewrite Hres. cbn. split_and!; [done|done|]. intros _. split; [done|].
    intros sym0 Hin Hw. exfalso. eapply elem_of_nil. apply Hfound. eauto.
  - rewrite Hres. cbn. split_and!; [done|done|]. intros _. split.
    + intros Hnone. exfalso. apply (Hnone x); apply Hfound; left.
    + intros sym0 Hin Hw. by exists (x :: found).
Qed.

(** X13: the event builder of the test does not carry the mount namespace,
    so an object registered with a non-zero one is never found in the mock
    loader and the test derives nothing for it, whatever it exports. *)
Theorem runTestCase_mount_namespace_miss (tc : testCase) :
  ObjMountNS (info (tc_loadingSO tc)) ≠ 0%Z →
  runTestCase tc = (None, None).
Proof.
  destruct tc as [name watched wl so expected]. cbn [tc_loadingSO]. intros Hns.
  unfold runTestCase. cbn [tc_loadingSO tc_watchedSymbols tc_whitelistedLibs].
  set (loader := addSOSymbols initLoaderMock so).
  set (gen := initSymbolsLoadedEventGenerator loader watched wl).
  set (ev := generateSOLoadedEvent 1 (info so)).
  set (seen := {| Id := Id (info so); Path := Path (info so); ObjMountNS := 0 |}).
  assert (getSharedObjectInfo ev = (seen, None)) as Hext
    by apply getSharedObjectInfo_generated.
  destruct (isWhitelist gen (Path seen)) eqn:Hwl.
  { by rewrite (deriveArgs_whitelisted gen ev seen Hext Hwl). }
  assert (seen ≠ info so) as Hne.
  { intros Heq. apply Hns. by rewrite <- Heq. }
  destruct (addSOSymbols_lookup initLoaderMock so) as (m & Hcache & _).
  assert (GetExportedSymbols (soLoader gen) seen = (loader, (∅, None))) as Hload.
  { subst gen. rewrite init_soLoader. cbn [GetExportedSymbols symbolsLoaderMock_loader].
    subst loader. rewrite Hcache, lookup_insert_ne by done. done. }
  rewrite (deriveArgs_resolved gen ev seen loader ∅ Hext Hwl Hload).
  destruct (collectWatched (watchedSymbols gen) (range_keys ∅)) as [|x found] eqn:Hc;
    [done|].
  assert (x ∈ collectWatched (watchedSymbols gen) (range_keys ∅)) as Hx
    by (rewrite Hc; left).
  apply elem_of_collectWatched in Hx as [Hx _]. by rewrite dom_empty_L in Hx.
Qed.

(** ** More on the derivation *)

Section DeriveMore.

Context {L : Type} `{!DynamicSymbolsLoader L} `{!MapRange}.
Implicit Types (gen : symbolsLoadedEventGenerator L) (loader : L).
Implicit Types (watched wl : list string) (event : Event) (info : ObjInfo).


(** X15: a generator that watches no symbol never derives arguments. *)
Theorem deriveArgs_nothing_watched loader wl event :
  (deriveArgs (initSymbolsLoadedEventGenerator loader [] wl) event).2.1 = None.
Proof.
  unfold deriveArgs.
  destruct (getSharedObjectInfo event) as [info [err|]]; [done|]. cbv beta iota.
  destruct (isWhitelist (initSymbolsLoadedEventGenerator loader [] wl) (Path info));
    [done|].
  destruct (GetExportedSymbols (soLoader (initSymbolsLoadedEventGenerator loader [] wl))
    info) as [loader' [soSyms [err|]]]; [done|]. cbv beta iota.
  destruct (collectWatched (watchedSymbols (initSymbolsLoadedEventGenerator loader [] wl))
    (range_keys soSyms)) as [|x found] eqn:Hc; [done|].
  assert (x ∈ collectWatched
    (watchedSymbols (initSymbolsLoadedEventGenerator loader [] wl))
    (range_keys soSyms)) as Hx by (rewrite Hc; left).
  apply elem_of_collectWatched in Hx as [_ Hx].
  apply init_watchedSymbols in Hx. by apply elem_of_nil in Hx.
Qed.

(** X16: the matched symbols are listed in the order in which the map of
    exported symbols is ranged over: they are the keys in that order, with
    the ones that are not watched left out. *)
Theorem deriveArgs_matches_in_range_order loader loader' watched wl event info
    (soSyms : gmap string bool) :
  getSharedObjectInfo event = (info, None) →
  isWhitelist (initSymbolsLoadedEventGenerator loader watched wl) (Path info) = false →
  GetExportedSymbols loader info = (loader', (soSyms, None)) →
  (deriveArgs (initSymbolsLoadedEventGenerator loader watched wl) event).2
  = match filter (fun sym => sym ∈ watched) (range_keys soSyms) with
    | [] => (None, None)
    | _ :: _ =>
        (Some [VString (Path info);
               VStrings (filter (fun sym => sym ∈ watched) (range_keys soSyms))], None)
    end.
Proof.
  intros Hext Hwl Hload.
  pose proof (deriveArgs_resolved
    (initSymbolsLoadedEventGenerator loader watched wl) event info loader' soSyms
    Hext Hwl) as Hres.
  rewrite init_soLoader in Hres. rewrite (Hres Hload), collectWatched_filter.
  rewrite (list_filter_iff _ (fun sym => sym ∈ watched)
    (range_keys soSyms) (init_watchedSymbols loader watched wl)).
  by destruct (filter _ _).
Qed.

End DeriveMore.

(** ** Joining a known libraries directory with a plain name *)

Module join_facts.
Import path.
Local Open Scope nat_scope.

Lemma bytes_app (s1 s2 : string) :
  list_ascii_of_string (s1 ++ s2)%string
  = list_ascii_of_string s1 ++ list_ascii_of_string s2.
Proof.
  induction s1 as [|c s1 IH]; [done|]. rewrite append_cons. cbn. by rewrite IH.
Qed.

Lemma bytes_length (s : string) : length (list_ascii_of_string s) = String.length s.
Proof. induction s as [|c s IH]; [done|]. cbn. by rewrite IH. Qed.

Lemma string_length_app (s1 s2 : string) :
  String.length (s1 ++ s2)%string = String.length s1 + String.length s2.
Proof. by rewrite <- !bytes_length, bytes_app, length_app. Qed.

Lemma byte_at_bytes (s : string) (i : nat) :
  byte_at s i = nth i (list_ascii_of_string s) Ascii.zero.
Proof.
  unfold byte_at. revert i. induction s as [|c s IH]; intros [|i]; cbn; by try done.
Qed.

Lemma byte_at_app_r (s1 s2 : string) (i : nat) :
  byte_at (s1 ++ s2)%string (String.length s1 + i) = byte_at s2 i.
Proof.
  rewrite !byte_at_bytes, bytes_app, <- bytes_length.
  rewrite app_nth2 by lia. f_equal. lia.
Qed.

(** Copying an element into an allocated buffer writes its bytes after the
    bytes already there. *)
Lemma copy_element_some (cs : list ascii) (p src : string) (n r w fuel : nat)
    (bs : list ascii) :
  Forall (fun c => Ascii.eqb c slash = false) cs →
  (∀ i, i < length cs → byte_at p (r + i) = nth i cs Ascii.zero) →
  n = r + length cs →
  length cs ≤ fuel →
  w + length cs ≤ length bs →
  ∃ bs', copy_element fuel p n r (Lazybuf src (Some bs) w)
         = (n, Lazybuf src (Some bs') (w + length cs))
         ∧ take (w + length cs) bs' = take w bs ++ cs
         ∧ length bs' = length bs.
Proof.
  revert r w fuel bs. induction cs as [|c cs IH]; intros r w fuel bs Hns Hp -> Hf Hw.
  - exists bs. cbn [length]. rewrite !Nat.add_0_r, app_nil_r. split; [|done].
    destruct fuel; cbn [copy_element]; by rewrite Nat.ltb_irrefl.
  - cbn [length] in *. apply Forall_cons in Hns as [Hc Hns].
    destruct fuel as [|fuel]; [lia|]. cbn [copy_element].
    assert (byte_at p r = c) as Hr.
    { specialize (Hp 0). rewrite Nat.add_0_r in Hp. apply Hp. lia. }
    rewrite Hr, Hc. rewrite (proj2 (Nat.ltb_lt r (r + S (length cs)))) by lia.
    cbn [andb negb]. unfold append. cbn [path.buf path.s path.w].
    destruct (IH (S r) (S w) fuel (<[w:=c]> bs) Hns) as (bs' & Hcopy & Htake & Hlen).
    + intros i Hi. specialize (Hp (S i)). cbn [nth] in Hp.
      rewrite <- Hp by lia. f_equal. lia.
    + lia.
    + lia.
    + rewrite length_insert. lia.
    + exists bs'. replace (w + S (length cs)) with (S w + length cs) by lia.
      split_and!; [done| |by rewrite Hlen, length_insert].
      rewrite Htake. rewrite (take_S_r _ _ c).
      * rewrite take_insert_ge by lia. by rewrite <- app_assoc.
      * apply list_lookup_insert_eq. lia.
Qed.
Lemma simpleName_cons (c : ascii) (lib : string) :
  simpleName (String c lib) = true →
  Ascii.eqb c slash = false
  ∧ Forall (fun x => Ascii.eqb x slash = false) (list_ascii_of_string lib)
  ∧ (Ascii.eqb c dot = true → lib ≠ ""%string)
  ∧ (Ascii.eqb c dot = true →
     ∀ c1 rest, lib = String c1 rest → Ascii.eqb c1 dot = true → rest ≠ ""%string).
Proof.
  unfold simpleName. rewrite !andb_true_iff, !negb_true_iff.
  intros [[[_ Hdot] Hdotdot] Hall]. cbn [list_ascii_of_string forallb] in Hall.
  apply andb_true_iff in Hall as [Hc Hall]. apply negb_true_iff in Hc.
  split_and!.
  - done.
  - apply Forall_forall. intros x Hx. apply list_elem_of_In in Hx.
    rewrite forallb_forall in Hall. specialize (Hall x Hx).
    by apply negb_true_iff in Hall.
  - intros Hcd ->. cbn in Hdot. unfold dot in Hcd. by rewrite Hcd in Hdot.
  - intros Hcd c1 rest -> Hc1 ->. cbn in Hdotdot. unfold dot in Hcd, Hc1.
    by rewrite Hcd, Hc1 in Hdotdot.
Qed.

Lemma append_shared (p : string) (k : nat) (c : ascii) :
  k < String.length p → byte_at p k = c →
  append (Lazybuf p None k) c = Lazybuf p None (S k).
Proof.
  intros Hk Hc. unfold append. cbn [path.buf path.s path.w].
  rewrite (proj2 (Nat.ltb_lt _ _) Hk), Hc, Ascii.eqb_refl. done.
Qed.

Lemma append_alloc (p : string) (k : nat) (c : ascii) :
  Ascii.eqb (byte_at p k) c = false →
  append (Lazybuf p None k) c
  = Lazybuf p
      (Some (<[k := c]> (take k (list_ascii_of_string p)
                         ++ replicate (String.length p - k) Ascii.zero)))
      (S k).
Proof.
  intros Hc. unfold append. cbn [path.buf path.s path.w].
  by rewrite Hc, andb_false_r.
Qed.

(** The last iteration of [Clean] on a path that ends in two separators and
    a plain name: the name is copied behind one separator. *)
Lemma clean_loop_last_element (a lib : string) (fuel : nat) :
  simpleName lib = true →
  String.length a ≠ 1 →
  ∃ bs',
    clean_loop (S fuel) (a ++ "//" ++ lib) (String.length (a ++ "//" ++ lib)) true
      (CleanState (String.length a + 2)
         (Lazybuf (a ++ "//" ++ lib) None (String.length a)) 1)
    = CleanState (String.length (a ++ "//" ++ lib))
        (Lazybuf (a ++ "//" ++ lib) (Some bs')
           (String.length a + 2 + (String.length lib - 1))) 1
    ∧ take (String.length a + 2 + (String.length lib - 1)) bs'
      = list_ascii_of_string (a ++ "/" ++ lib).
Proof.
  intros Hsimple Hla. destruct lib as [|c lib]; [done|].
  destruct (simpleName_cons c lib Hsimple) as (Hc & Hall & Hdot & Hdotdot).
  set (p := (a ++ "//" ++ String c lib)%string).
  set (la := String.length a). fold la in Hla.
  assert (String.length p = la + 2 + S (String.length lib)) as Hn.
  { subst p la. rewrite !string_length_app. cbn [String.length]. lia. }
  assert (∀ i, byte_at p (la + 2 + i) = byte_at (String c lib) i) as Hlib.
  { intros i. subst p la. replace (String.length a + 2 + i)
      with (String.length a + S (S i)) by lia. by rewrite byte_at_app_r. }
  assert (byte_at p la = slash) as Hs0.
  { subst p la. rewrite <- (Nat.add_0_r (String.length a)). by rewrite byte_at_app_r. }
  assert (byte_at p (S la) = slash) as Hs1.
  { subst p la. replace (S (String.length a)) with (String.length a + 1) by lia.
    by rewrite byte_at_app_r. }
  pose proof (Hlib 0) as H0. rewrite Nat.add_0_r in H0.
  change (byte_at (String c lib) 0) with c in H0.
  pose proof (Hlib 1) as H1. pose proof (Hlib 2) as H2.
  rewrite Hn. cbn [clean_loop cs_r].
  rewrite (proj2 (Nat.ltb_lt (la + 2) (la + 2 + S (String.length lib)))) by lia.
  unfold clean_step. cbn [cs_r cs_out cs_dotdot path.w].
  rewrite H0, H1, H2, Hc.
  assert (Ascii.eqb c dot
          && ((la + 2 + 1 =? la + 2 + S (String.length lib))
              || Ascii.eqb (byte_at (String c lib) 1) slash) = false) as ->.
  { destruct (Ascii.eqb c dot) eqn:Hcd; [|done]. cbn [andb].
    destruct lib as [|c1 rest]; [by destruct (Hdot eq_refl)|].
    apply Forall_cons in Hall as [Hc1 _].
    change (byte_at (String c (String c1 rest)) 1) with c1. rewrite Hc1.
    cbn [String.length]. rewrite (proj2 (Nat.eqb_neq _ _)) by lia. done. }
  assert (Ascii.eqb c dot && Ascii.eqb (byte_at (String c lib) 1) dot
          && ((la + 2 + 2 =? la + 2 + S (String.length lib))
              || Ascii.eqb (byte_at (String c lib) 2) slash) = false) as ->.
  { destruct (Ascii.eqb c dot) eqn:Hcd; [|done]. cbn [andb].
    destruct lib as [|c1 rest]; [done|].
    change (byte_at (String c (String c1 rest)) 1) with c1.
    destruct (Ascii.eqb c1 dot) eqn:Hc1d; [|done]. cbn [andb].
    destruct rest as [|c2 rest]; [by destruct (Hdotdot eq_refl c1 ""%string eq_refl Hc1d)|].
    apply Forall_cons in Hall as [_ Hall]. apply Forall_cons in Hall as [Hc2 _].
    change (byte_at (String c (String c1 (String c2 rest))) 2) with c2. rewrite Hc2.
    cbn [String.length]. rewrite (proj2 (Nat.eqb_neq _ _)) by lia. done. }
  cbn [andb orb negb]. rewrite (proj2 (Nat.eqb_neq la 1)) by done.
  cbn [andb orb negb].
  rewrite (append_shared p la slash) by (rewrite ?Hn; first [lia|done]).
  replace (la + 2 + S (String.length lib) - (la + 2)) with (S (String.length lib))
    by lia.
  cbn [copy_element]. rewrite H0, Hc.
  rewrite (proj2 (Nat.ltb_lt (la + 2) (la + 2 + S (String.length lib)))) by lia.
  cbn [andb negb].
  rewrite (append_alloc p (S la) c)
    by (rewrite Hs1; by rewrite Ascii.eqb_sym).
  rewrite Hn.
  set (fresh := take (S la) (list_ascii_of_string p)
                ++ replicate (la + 2 + S (String.length lib) - S la) Ascii.zero).
  assert (take (S la) (list_ascii_of_string p)
          = list_ascii_of_string (a ++ "/")) as Hpre.
  { subst p la. replace (a ++ "//" ++ String c lib)%string
      with ((a ++ "/") ++ ("/" ++ String c lib))%string
      by (by rewrite string_app_assoc).
    rewrite bytes_app. rewrite take_app_length'; [done|].
    rewrite bytes_length, string_length_app. cbn [String.length]. lia. }
  assert (length fresh = la + 2 + S (String.length lib)) as Hfresh.
  { subst fresh. rewrite length_app, length_replicate, Hpre, bytes_length,
      string_length_app. cbn [String.length]. fold la. lia. }
  destruct (copy_element_some (list_ascii_of_string lib) p p
    (la + 2 + S (String.length lib)) (S (la + 2)) (S (S la)) (String.length lib)
    (<[S la := c]> fresh) Hall) as (bs' & Hcopy & Htake & Hlen).
  { intros i Hi. replace (S (la + 2) + i) with (la + 2 + S i) by lia.
    rewrite Hlib. rewrite byte_at_bytes. done. }
  { rewrite bytes_length. lia. }
  { rewrite bytes_length. lia. }
  { rewrite length_insert, Hfresh, bytes_length. lia. }
  rewrite Hcopy. rewrite bytes_length in Htake |- *.
  exists bs'. replace (String.length (String c lib) - 1) with (String.length lib)
    by (cbn [String.length]; lia).
  replace (la + 2 + String.length lib) with (S (S la) + String.length lib) by lia.
  split.
  - destruct fuel; cbn [clean_loop cs_r]; by rewrite Nat.ltb_irrefl.
  - rewrite Htake. rewrite (take_S_r _ _ c).
    + rewrite take_insert_ge by lia. subst fresh.
      rewrite take_app_length'; [|by rewrite Hpre, bytes_length, string_length_app;
        cbn [String.length]; fold la; lia].
      rewrite Hpre. replace (a ++ "/" ++ String c lib)%string
        with ((a ++ "/") ++ String c lib)%string by (by rewrite string_app_assoc).
      rewrite (bytes_app (a ++ "/") (String c lib)). cbn [list_ascii_of_string].
      by rewrite <- app_assoc.
    + apply list_lookup_insert_eq. lia.
Qed.

(** [Clean] on an absolute path [a] followed by two separators and a plain
    name, once the loop has read [a] and the separators in [k] iterations
    without changing a byte. *)
Lemma Clean_after_prefix (a lib : string) (k : nat) :
  simpleName lib = true →
  String.length a ≠ 1 →
  k ≤ String.length a + 1 →
  String.eqb (a ++ "//" ++ lib) "" = false →
  Ascii.eqb (byte_at (a ++ "//" ++ lib) 0) slash = true →
  (∀ fuel,
     clean_loop (k + fuel) (a ++ "//" ++ lib) (String.length (a ++ "//" ++ lib)) true
       (CleanState 1 (append (Lazybuf (a ++ "//" ++ lib) None 0) slash) 1)
     = clean_loop fuel (a ++ "//" ++ lib) (String.length (a ++ "//" ++ lib)) true
         (CleanState (String.length a + 2)
            (Lazybuf (a ++ "//" ++ lib) None (String.length a)) 1)) →
  Clean (a ++ "//" ++ lib) = (a ++ "/" ++ lib)%string.
Proof.
  intros Hsimple Hla Hk Hne Hrooted Hrun. unfold Clean. rewrite Hne, Hrooted.
  assert (String.length (a ++ "//" ++ lib) = String.length a + 2 + String.length lib)
    as Hn by (rewrite !string_length_app; cbn [String.length]; lia).
  assert (0 < String.length lib) as Hlib by (destruct lib; [done|cbn; lia]).
  replace (clean_loop (String.length (a ++ "//" ++ lib)))
    with (clean_loop (k + S (String.length (a ++ "//" ++ lib) - k - 1)))
    by (f_equal; lia).
  rewrite Hrun.
  destruct (clean_loop_last_element a lib
    (String.length (a ++ "//" ++ lib) - k - 1) Hsimple Hla) as (bs' & -> & Htake).
  cbn [cs_out path.w]. rewrite (proj2 (Nat.eqb_neq _ 0)) by lia.
  unfold to_string. cbn [path.buf path.w]. rewrite Htake.
  apply string_of_list_ascii_of_string.
Qed.

(** [Clean] reads each known libraries directory without changing a byte. *)
Lemma Clean_known_dir_plain_name (a lib : string) :
  a ∈ ["/usr/lib/x86_64-linux-gnu"; "/usr/lib64"; "/usr/lib"; "/lib64"; "/lib"]%string →
  simpleName lib = true →
  Clean (a ++ "//" ++ lib) = (a ++ "/" ++ lib)%string.
Proof.
  intros Hin Hsimple.
  repeat (apply elem_of_cons in Hin as [->|Hin]); [..|by apply elem_of_nil in Hin].
  - apply (Clean_after_prefix _ lib 7 Hsimple); [done|cbn; lia|done|done|].
    intros fuel. vm_compute. reflexivity.
  - apply (Clean_after_prefix _ lib 5 Hsimple); [done|cbn; lia|done|done|].
    intros fuel. vm_compute. reflexivity.
  - apply (Clean_after_prefix _ lib 5 Hsimple); [done|cbn; lia|done|done|].
    intros fuel. vm_compute. reflexivity.
  - apply (Clean_after_prefix _ lib 3 Hsimple); [done|cbn; lia|done|done|].
    intros fuel. vm_compute. reflexivity.
  - apply (Clean_after_prefix _ lib 3 Hsimple); [done|cbn; lia|done|done|].
    intros fuel. vm_compute. reflexivity.
Qed.

(** [Join] of two non-empty elements cleans them with a separator between. *)
Lemma Join_two (d lib : string) :
  d ≠ ""%string → lib ≠ ""%string →
  Join [d; lib] = Clean (d ++ "/" ++ lib).
Proof.
  intros Hd Hlib. unfold Join. cbn [foldl].
  destruct d as [|x d]; [done|]. destruct lib as [|y lib]; [done|].
  cbn [String.length]. rewrite Nat.add_succ_r. cbn [Nat.eqb].
  change (join_step "" (String x d)) with (String x d).
  change (join_step (String x d) (String y lib))
    with ((String x d ++ "/") ++ String y lib)%string.
  by rewrite string_app_assoc.
Qed.

Lemma Join_known_dir_plain_name (d lib : string) :
  d ∈ knownLibrariesDirs → simpleName lib = true →
  Join [d; lib] = (d ++ lib)%string.
Proof.
  intros Hd Hsimple.
  assert (lib ≠ ""%string) as Hlib by (by intros ->).
  assert (∃ a, d = (a ++ "/")%string
               ∧ a ∈ ["/usr/lib/x86_64-linux-gnu"; "/usr/lib64"; "/usr/lib";
                      "/lib64"; "/lib"]%string) as (a & -> & Ha).
  { unfold knownLibrariesDirs in Hd.
    repeat (apply elem_of_cons in Hd as [->|Hd]); [..|by apply elem_of_nil in Hd].
    - exists "/usr/lib/x86_64-linux-gnu"%string. split; [done|set_solver].
    - exists "/usr/lib64"%string. split; [done|set_solver].
    - exists "/usr/lib"%string. split; [done|set_solver].
    - exists "/lib64"%string. split; [done|set_solver].
    - exists "/lib"%string. split; [done|set_solver]. }
  rewrite Join_two; [|by destruct a|done].
  rewrite !string_app_assoc.
  change ("/" ++ "/" ++ lib)%string with ("//" ++ lib)%string.
  by apply Clean_known_dir_plain_name.
Qed.

End join_facts.

(** X17: joining a known libraries directory with a plain name (not empty,
    not [.] or [..], without a separator) appends the name to the
    directory, so the joined path stays under the directory. *)
Theorem Join_libsDirectory_plain_name (d lib : string) :
  d ∈ knownLibrariesDirs →
  simpleName lib = true →
  path.Join [d; lib] = (d ++ lib)%string
  ∧ strings.HasPrefix (path.Join [d; lib]) d = true.
Proof.
  intros Hd Hsimple.
  rewrite (join_facts.Join_known_dir_plain_name d lib Hd Hsimple).
  split; [done|]. apply HasPrefix_spec. by exists lib.
Qed.

(** X18: when every library rule of the configuration is a plain name, a
    path is whitelisted exactly when it starts with a path-prefix rule, or
    with the first known libraries directory that is a prefix of it followed
    by a library rule. *)
Theorem isWhitelist_plain_library_rules {L : Type} (loader : L)
    (watched wl : list string) (soPath : string) :
  (∀ rule, rule ∈ wl → strings.HasPrefix rule "/" = false → simpleName rule = true) →
  (isWhitelist (initSymbolsLoadedEventGenerator loader watched wl) soPath = true
   ↔ (∃ rule, rule ∈ wl ∧ strings.HasPrefix rule "/" = true
        ∧ strings.HasPrefix soPath rule = true)
     ∨ (∃ d rule, FirstPrefixDir knownLibrariesDirs soPath d
          ∧ rule ∈ wl ∧ strings.HasPrefix rule "/" = false
          ∧ strings.HasPrefix soPath (d ++ rule)%string = true)).
Proof.
  intros Hplain. rewrite isWhitelist_true, inWhitelistedLibsDir_true. split.
  - intros [(rule & Hin & Hpre)|[_ (d & rule & Hfirst & Hin & Hpre)]].
    + left. exists rule. apply elem_of_pathPrefixWhitelist in Hin. tauto.
    + right. exists d, rule. apply elem_of_librariesWhitelist in Hin as [Hin Hrule].
      destruct (FirstPrefixDir_elem_of _ _ _ Hfirst) as [Hd _].
      rewrite (join_facts.Join_known_dir_plain_name d rule Hd (Hplain _ Hin Hrule))
        in Hpre. tauto.
  - intros [(rule & Hin & Hrule & Hpre)|(d & rule & Hfirst & Hin & Hrule & Hpre)].
    + left. exists rule. split; [|done]. by apply elem_of_pathPrefixWhitelist.
    + assert (rule ∈ librariesWhitelist
        (initSymbolsLoadedEventGenerator loader watched wl)) as Hlib
        by by apply elem_of_librariesWhitelist.
      right. split.
      * intros Hnil. rewrite Hnil in Hlib. by apply elem_of_nil in Hlib.
      * exists d, rule. split_and!; [done|done|].
        destruct (FirstPrefixDir_elem_of _ _ _ Hfirst) as [Hd _].
        by rewrite (join_facts.Join_known_dir_plain_name d rule Hd
          (Hplain _ Hin Hrule)).
Qed.

(** ** The further properties at sample inputs *)

Lemma init_watched_as_set_witness :
  initSymbolsLoadedEventGenerator initLoaderMock ["open"; "close"; "open"] sampleWhitelist
  = initSymbolsLoadedEventGenerator initLoaderMock ["close"; "open"] sampleWhitelist.
Proof.
  apply (init_watched_as_set initLoaderMock ["open"; "close"; "open"] ["close"; "open"]).
  intros sym. rewrite !elem_of_cons, !elem_of_nil. tauto.
Defined.

Lemma isWhitelist_without_library_scope_witness :
  isWhitelist orderedGen "/home/user/test.so" = true
  ↔ ∃ prefix, prefix ∈ pathPrefixWhitelist orderedGen
      ∧ strings.HasPrefix "/home/user/test.so" prefix = true.
Proof.
  apply (isWhitelist_without_library_scope orderedGen "/home/user/test.so").
  right. unfold knownLibrariesDirs.
  repeat (apply List.Forall_cons; [vm_compute; reflexivity|]). apply List.Forall_nil.
Defined.

Lemma isWhitelist_init_monotone_witness :
  isWhitelist (initSymbolsLoadedEventGenerator eagerLoader [] sampleWhitelist)
    "/lib/test.so" = true.
Proof.
  apply (isWhitelist_init_monotone failingLoader eagerLoader sampleWatched []
    ["test"] sampleWhitelist "/lib/test.so").
  - intros rule Hin. unfold sampleWhitelist.
    apply elem_of_cons in Hin as [->|Hin]; [left|by apply elem_of_nil in Hin].
  - vm_compute. reflexivity.
Defined.

Lemma isWhitelist_prefix_rule_subtree_witness :
  isWhitelist orderedGen ("/opt/app" ++ "/libfoo.so")%string = true.
Proof.
  apply (isWhitelist_prefix_rule_subtree orderedGen "/opt/app" "/opt/" "/libfoo.so").
  - right. left.
  - vm_compute. reflexivity.
Defined.

Lemma knownLibrariesDirs_first_most_specific_witness :
  strings.HasPrefix "/usr/lib/x86_64-linux-gnu/" "/usr/lib/" = true.
Proof.
  apply (knownLibrariesDirs_first_most_specific multiarchPath
    "/usr/lib/x86_64-linux-gnu/" "/usr/lib/").
  - exact multiarch_first_dir.
  - unfold knownLibrariesDirs. right. right. left.
  - vm_compute. reflexivity.
Defined.

Lemma getSharedObjectInfo_first_defect_witness :
  getSharedObjectInfo noDevEvent
  = (zeroObjInfo, Some (ExtractionError "dev" FieldAbsent)).
Proof.
  apply (getSharedObjectInfo_first_defect noDevEvent [("inode", RUint64)]
    [("ctime", RUint64); ("pathname", RString)] ("dev", RUint32) FieldAbsent).
  - reflexivity.
  - apply List.Forall_cons; [vm_compute; reflexivity|apply List.Forall_nil].
  - vm_compute. reflexivity.
Defined.

Lemma getSharedObjectInfo_success_witness :
  ∃ i d c p,
    parse.findArg sampleEvent "inode" = Some (VUint64 i)
    ∧ parse.findArg sampleEvent "dev" = Some (VUint32 d)
    ∧ parse.findArg sampleEvent "ctime" = Some (VUint64 c)
    ∧ parse.findArg sampleEvent "pathname" = Some (VString p)
    ∧ getSharedObjectInfo sampleEvent
      = ({| Id := {| Inode := i; Device := d; Ctime := c |};
            Path := p; ObjMountNS := MountNS sampleEvent |}, None).
Proof.
  apply (getSharedObjectInfo_success sampleEvent). unfold requiredFields.
  repeat (apply List.Forall_cons; [vm_compute; reflexivity|]). apply List.Forall_nil.
Defined.

Lemma runTestCase_general_witness : (runTestCase sampleCase).2 = None.
Proof. exact (proj1 (runTestCase_general sampleCase eq_refl)). Defined.

Lemma runTestCase_mount_namespace_miss_witness :
  runTestCase namespacedCase = (None, None).
Proof. apply (runTestCase_mount_namespace_miss namespacedCase). discriminate. Defined.


Lemma deriveArgs_matches_in_range_order_witness :
  (deriveArgs (initSymbolsLoadedEventGenerator sampleLoader sampleWatched []) sampleEvent).2
  = match filter (fun sym => sym ∈ sampleWatched)
            (range_keys (default ∅ (cache sampleLoader !! info sampleSO))) with
    | [] => (None, None)
    | _ :: _ =>
        (Some [VString (Path (info sampleSO));
               VStrings (filter (fun sym => sym ∈ sampleWatched)
                 (range_keys (default ∅ (cache sampleLoader !! info sampleSO))))], None)
    end.
Proof.
  apply (deriveArgs_matches_in_range_order sampleLoader sampleLoader sampleWatched []
    sampleEvent (info sampleSO) (default ∅ (cache sampleLoader !! info sampleSO))).
  - vm_compute. reflexivity.
  - vm_compute. reflexivity.
  - reflexivity.
Defined.

Lemma Join_libsDirectory_plain_name_witness :
  path.Join ["/lib/"; "libc.so.6"] = ("/lib/" ++ "libc.so.6")%string
  ∧ strings.HasPrefix (path.Join ["/lib/"; "libc.so.6"]) "/lib/" = true.
Proof.
  apply (Join_libsDirectory_plain_name "/lib/" "libc.so.6").
  - unfold knownLibrariesDirs. do 4 right. left.
  - vm_compute. reflexivity.
Defined.

Lemma isWhitelist_plain_library_rules_witness :
  isWhitelist (initSymbolsLoadedEventGenerator initLoaderMock sampleWatched sampleWhitelist)
    "/lib/test.so" = true.
Proof.
  apply (isWhitelist_plain_library_rules initLoaderMock sampleWatched sampleWhitelist
    "/lib/test.so").
  - intros rule Hin Hrule. unfold sampleWhitelist in Hin.
    apply elem_of_cons in Hin as [->|Hin]; [vm_compute; reflexivity|].
    apply elem_of_cons in Hin as [->|Hin]; [vm_compute in Hrule; discriminate Hrule|].
    destruct (proj1 (elem_of_nil rule) Hin).
  - right. exists "/lib/"%string, "test"%string.
    split; [exact lib_is_first_dir_of_test_so|].
    split; [left|]. split; vm_compute; reflexivity.
Defined.

(** A library rule does not whitelist everything below a matching path: the
    rule [x86] matches [/usr/lib/x86], not the directory
    [/usr/lib/x86_64-linux-gnu/] of which that path is a prefix. *)
Example library_rule_not_closed_under_extension :
  isWhitelist (initSymbolsLoadedEventGenerator initLoaderMock [] ["x86"])
    "/usr/lib/x86" = true
  ∧ isWhitelist (initSymbolsLoadedEventGenerator initLoaderMock [] ["x86"])
      "/usr/lib/x86_64-linux-gnu/foo.so" = false.
Proof. split; vm_compute; reflexivity. Qed.

(** A library rule with [..] leaves its directory. *)
Example library_rule_with_dotdot :
  path.Join ["/usr/lib/"; "../bin"] = "/usr/bin"%string
  ∧ isWhitelist (initSymbolsLoadedEventGenerator initLoaderMock [] ["../bin"])
      "/usr/lib/../bin/tool.so" = false.
Proof. split; vm_compute; reflexivity. Qed.
